(** * signac.contrib.sync: the merge engine

    A shallow embedding of [signac/contrib/sync.py]: the merge strategies,
    the data modification proxy, the document merge, its transactional
    wrapper, the directory merge and the job and project merges, followed
    by the properties of these functions.

    Conventions of the embedding.
    - A Python exception is a value of [exn]; a call that may raise returns
      a [result].  Only subclasses of [Exception] are modelled.
    - Mutable objects are threaded explicitly: every function takes the
      destination object and what else it may change (the trace, the files,
      the world) and returns them updated, also when it raises: what was
      mutated before the exception stays mutated.
    - The source side of a merge is only read: source and destination do
      not share storage.
    - The strategy [last_modified] reads the modification times through
      [os.path.getmtime], which it takes as a parameter here.  The strategy
      [ask] needs the terminal and is not embedded. *)

From Stdlib Require Import ZArith Ascii.
From stdpp Require Import base strings list gmap.

Local Open Scope string_scope.
Local Open Scope Z_scope.

Set Warnings "-register-all,-clear-no-such-hyp".

(** ** Exceptions and results *)

(** The schema of a project.
    Modelled from the spec: [Project.detect_schema] is not part of this
    module; the spec describes its value as supporting emptiness, equality
    and an asymmetric set difference, so a schema is a finite set of keys. *)
Abbreviation schema := (gset string).

Inductive exn :=
| KeyError
| TypeError
| AttributeError
| RuntimeError
| AssertionError
| ValueError
| OSError
| DestinationExistsError
| MergeConflict (fn : string)
| MergeSchemaConflict (schema_src schema_dst : schema)
| UserError (name : string).

Inductive result (A : Type) :=
| Ok (a : A)
| Raise (e : exn).
Arguments Ok {A} a.
Arguments Raise {A} e.

(** ** Python values of a document *)

(** A document value is a scalar or a nested document (spec, data model).
    A [dict] keeps its items in insertion order; its keys are unique. *)
Inductive value :=
| VNone
| VBool (b : bool)
| VInt (n : Z)
| VStr (s : string)
| VDict (items : list (string * value)).

Abbreviation items := (list (string * value)).

Fixpoint assoc {A} (k : string) (l : list (string * A)) : option A :=
  match l with
  | [] => None
  | (k', v) :: l' => if String.eqb k k' then Some v else assoc k l'
  end.

(** [d[k] = v] on an ordered mapping: an existing key keeps its place,
    a new key goes to the end. *)
Fixpoint assoc_set {A} (k : string) (v : A) (l : list (string * A))
  : list (string * A) :=
  match l with
  | [] => [(k, v)]
  | (k', v') :: l' =>
      if String.eqb k k' then (k, v) :: l' else (k', v') :: assoc_set k v l'
  end.

Definition keys {A} (l : list (string * A)) : list string := map fst l.

(** [a == b].  Dictionaries compare equal when they have the same keys with
    equal values, in any order; [True == 1] and [False == 0] as in Python. *)
Fixpoint py_eq (a b : value) {struct a} : bool :=
  match a, b with
  | VNone, VNone => true
  | VBool x, VBool y => Bool.eqb x y
  | VInt x, VInt y => Z.eqb x y
  | VBool x, VInt y => Z.eqb (if x then 1 else 0) y
  | VInt x, VBool y => Z.eqb x (if y then 1 else 0)
  | VStr x, VStr y => String.eqb x y
  | VDict xs, VDict ys =>
      Nat.eqb (length xs) (length ys) &&
      (fix all_in (l : items) : bool :=
         match l with
         | [] => true
         | (k, v) :: l' =>
             match assoc k ys with
             | Some w => py_eq v w && all_in l'
             | None => false
             end
         end) xs
  | _, _ => false
  end.

(** [sub in s] on strings. *)
Fixpoint str_contains (sub s : string) : bool :=
  String.prefix sub s ||
  match s with
  | EmptyString => false
  | String _ s' => str_contains sub s'
  end.

(** [key in obj] *)
Definition py_contains (key : string) (obj : value) : result bool :=
  match obj with
  | VDict d => Ok (bool_decide (is_Some (assoc key d)))
  | VStr s => Ok (str_contains key s)
  | _ => Raise TypeError
  end.

(** [obj[key]] for a string key *)
Definition py_getitem (obj : value) (key : string) : result value :=
  match obj with
  | VDict d => match assoc key d with Some v => Ok v | None => Raise KeyError end
  | _ => Raise TypeError
  end.

(** [obj[key] = v] for a string key *)
Definition py_setitem (obj : value) (key : string) (v : value) : result value :=
  match obj with
  | VDict d => Ok (VDict (assoc_set key v d))
  | _ => Raise TypeError
  end.

(** [isinstance(v, Mapping)] *)
Definition is_Mapping (v : value) : bool :=
  match v with VDict _ => true | _ => false end.

(** ** Callables *)

(** A strategy is a Python function; what matters of it here is how many
    positional parameters it takes.  Calling it with another number of
    arguments raises [TypeError]. *)
Inductive callable :=
| Fn1 (f : string -> result bool)
| Fn2 (f : string -> string -> result bool).

Definition call1 (c : callable) (a : string) : result bool :=
  match c with Fn1 f => f a | Fn2 _ => Raise TypeError end.

Definition call2 (c : callable) (a b : string) : result bool :=
  match c with Fn2 f => f a b | Fn1 _ => Raise TypeError end.

(** Merge strategy: always merge files on conflict. *)
Definition theirs : callable := Fn2 (fun fn_src fn_dst => Ok true).

(** Merge strategy: never merge files on conflict. *)
Definition ours : callable := Fn2 (fun fn_src fn_dst => Ok false).

(** Merge strategy: merge a file based on its modification time stamp.
    [getmtime] is [os.path.getmtime], which raises for a path that does not
    exist. *)
Definition last_modified (getmtime : string -> result Z) : callable :=
  Fn2 (fun fn_src fn_dst =>
         match getmtime fn_src with
         | Raise e => Raise e
         | Ok m_src =>
             match getmtime fn_dst with
             | Raise e => Raise e
             | Ok m_dst => Ok (Z.gtb m_src m_dst)
             end
         end).

(** ** Logging and the data modification proxy *)

(** One constructor per message the module sends to its logger. *)
Inductive log_record :=
| LogSet (key : string) (v : value)
| LogCopy (src dst : string)
| LogCopytree (src dst : string)
| LogRemove (path : string)
| LogCreateBackup (path : string)
| LogRemoveBackup (path : string)
| LogError (e : exn)
| LogRestoringBackup
| LogExcluded (fn : string)
| LogSkipFile (fn : string)
| LogMergingJob (job : string) (dry : bool)
| LogMergingSelection (n : nat) (src dst : string)
| LogMergingProject (src dst : string)
| LogRoots (src dst : string)
| LogDryRun
| LogExcludePattern
| LogMergeStrategy
| LogNotInSelection (job : string)
| LogClonedJob (job : string)
| LogMergedJob (job : string)
| LogSummary (cloned merged : nat)
| LogSkippedCount (n : nat)
| LogSkippedKeys (ks : gset string).

(** What the calls made so far have left behind: the records sent to the
    logger, oldest first, and the number of item assignments performed on
    documents. *)
Record trace := Trace { log : list log_record; assigned : nat }.

Definition logged (r : log_record) (t : trace) : trace :=
  Trace (log t ++ [r])%list (assigned t).

Record _DataModifyProxy := { dry_run : bool }.

(** The attribute [dry_run] of a proxy, where an argument of the same name
    hides it. *)
Abbreviation proxy_dry_run := dry_run.

(** [_DataModifyProxy.set_value] *)
Definition set_value (proxy : _DataModifyProxy) (doc : value) (key : string)
    (v : value) (t : trace) : result unit * value * trace :=
  let t := logged (LogSet key v) t in
  if dry_run proxy then (Ok (), doc, t)
  else match py_setitem doc key v with
       | Ok doc' => (Ok (), doc', Trace (log t) (S (assigned t)))
       | Raise e => (Raise e, doc, t)
       end.

(** ** The document merge *)

(** A nested document is an object shared with the document that holds it:
    what the recursive merge assigns in it shows in the holder. *)
Definition write_back (holder : value) (key : string) (nested : value) : value :=
  match holder with
  | VDict d => VDict (assoc_set key nested d)
  | _ => holder
  end.

Section merge_dicts_loop.
Variable merge_nested :
  value -> value -> trace -> result (gset string) * value * trace.
Variable strategy : option callable.
Variable proxy : _DataModifyProxy.

(** The [for key, value in src.items()] loop of [_merge_dicts]. *)
Fixpoint merge_items (src : items) (dst : value) (skipped_keys : gset string)
    (t : trace) {struct src} : result (gset string) * value * trace :=
  match src with
  | [] => (Ok skipped_keys, dst, t)
  | (key, value) :: rest =>
      let assign dst t :=
        match set_value proxy dst key value t with
        | (Ok _, dst, t) => merge_items rest dst skipped_keys t
        | (Raise e, dst, t) => (Raise e, dst, t)
        end in
      match py_contains key dst with
      | Raise e => (Raise e, dst, t)
      | Ok false => assign dst t
      | Ok true =>
          match py_getitem dst key with
          | Raise e => (Raise e, dst, t)
          | Ok dst_key =>
              if py_eq dst_key value then merge_items rest dst skipped_keys t
              else
                let skip := merge_items rest dst ({[key]} ∪ skipped_keys) t in
                match strategy with
                | None => skip
                | Some f =>
                    match call1 f key with
                    | Raise e => (Raise e, dst, t)
                    | Ok false => skip
                    | Ok true =>
                        if is_Mapping value then
                          match merge_nested value dst_key t with
                          | (Ok sk, nested, t) =>
                              merge_items rest (write_back dst key nested)
                                (skipped_keys ∪ sk) t
                          | (Raise KeyError, nested, t) =>
                              assign (write_back dst key nested) t
                          | (Raise e, nested, t) =>
                              (Raise e, write_back dst key nested, t)
                          end
                        else assign dst t
                    end
                end
          end
      end
  end.
End merge_dicts_loop.

(** [_merge_dicts(src, dst, strategy, proxy)].  [src] is a mapping at every
    call of the module; on another value [src.items()] raises. *)
Fixpoint _merge_dicts (src dst : value) (strategy : option callable)
    (proxy : _DataModifyProxy) (t : trace) {struct src}
  : result (gset string) * value * trace :=
  if py_eq src dst then (Ok ∅, dst, t)
  else match src with
       | VDict d =>
           merge_items (fun s d t => _merge_dicts s d strategy proxy t)
             strategy proxy d dst ∅ t
       | _ => (Raise AttributeError, dst, t)
       end.

(** ** Directories *)

(** A regular file: its bytes and its modification time. *)
Record file := RegularFile { content : string; mtime : Z }.

(** A directory tree.  The entries of a directory have distinct names. *)
Inductive node :=
| File (f : file)
| Dir (entries : list (string * node)).

Abbreviation entries := (list (string * node)).

Definition mem (x : string) (l : list string) : bool :=
  existsb (String.eqb x) l.

Fixpoint insert_sorted (x : string) (l : list string) : list string :=
  match l with
  | [] => [x]
  | y :: l' => if String.leb x y then x :: l else y :: insert_sorted x l'
  end.

(** [list.sort] on names *)
Definition sorted (l : list string) : list string :=
  foldr insert_sorted [] l.

Definition ends_with_slash (s : string) : bool :=
  match String.length s with
  | O => false
  | S n => match String.get n s with
           | Some c => Ascii.eqb c "/"%char
           | None => false
           end
  end.

(** [os.path.join(a, b)] *)
Definition path_join (a b : string) : string :=
  if String.prefix "/" b then b
  else if String.eqb a "" || ends_with_slash a then a +:+ b
  else a +:+ "/" +:+ b.

(** *** [filecmp.dircmp] *)

(** [filecmp.DEFAULT_IGNORES] *)
Definition DEFAULT_IGNORES : list string :=
  ["RCS"; "CVS"; "tags"; ".git"; ".hg"; ".bzr"; "_darcs"; "__pycache__"].

(** The names [dircmp] lists in a directory: sorted, without the hidden
    ([.], [..]) and the ignored ones. *)
Definition listing (d : entries) : list string :=
  sorted (filter (fun x => negb (mem x ([("."); ("..")] ++ DEFAULT_IGNORES)%list))
            (keys d)).

(** [filecmp.cmp(f1, f2, shallow=True)] on two regular files: files with
    the same size and modification time are taken to be equal; otherwise the
    contents are compared. *)
Definition cmp (f1 f2 : file) : bool :=
  Nat.eqb (String.length (content f1)) (String.length (content f2)) &&
  (Z.eqb (mtime f1) (mtime f2) || String.eqb (content f1) (content f2)).

Definition both_dirs (a b : entries) (x : string) : bool :=
  match assoc x a, assoc x b with
  | Some (Dir _), Some (Dir _) => true
  | _, _ => false
  end.

Definition both_files (a b : entries) (x : string) : bool :=
  match assoc x a, assoc x b with
  | Some (File _), Some (File _) => true
  | _, _ => false
  end.

Definition differ (a b : entries) (x : string) : bool :=
  match assoc x a, assoc x b with
  | Some (File f1), Some (File f2) => negb (cmp f1 f2)
  | _, _ => false
  end.

Definition left_only (a b : entries) : list string :=
  filter (fun x => negb (mem x (listing b))) (listing a).

Definition common (a b : entries) : list string :=
  filter (fun x => mem x (listing b)) (listing a).

Definition common_dirs (a b : entries) : list string :=
  filter (both_dirs a b) (common a b).

Definition common_files (a b : entries) : list string :=
  filter (both_files a b) (common a b).

Definition diff_files (a b : entries) : list string :=
  filter (differ a b) (common_files a b).

(** [dircmp.subdirs], as the names it is keyed by. *)
Definition subdirs (a b : entries) : list string := common_dirs a b.

(** The regular files that back documents, by path, with their bytes. *)
Abbreviation files := (gmap string string).

Section sync.

(** [re.match(pattern, string)] as a truth value: whether the pattern
    matches at the start of the string. *)
Variable re_match : string -> string -> bool.

(** The modification time the file system gives to a file written during
    the merge. *)
Variable now : Z.

(** *** [shutil] and the proxy methods on paths *)

(** [shutil.copy(src, dst)] where [dst] names an entry of the directory [d]
    and [src] has been looked up: the bytes are copied, the modification
    time is not.  No call of the module has a directory at [dst]. *)
Definition shutil_copy (src : option node) (name : string) (d : entries)
  : result entries :=
  match src, assoc name d with
  | Some (File f), (None | Some (File _)) =>
      Ok (assoc_set name (File (RegularFile (content f) now)) d)
  | _, _ => Raise OSError
  end.

(** [shutil.copytree(src, dst)]: the destination must not exist; the tree
    is copied with its modification times ([copy2]). *)
Definition shutil_copytree (src : option node) (name : string) (d : entries)
  : result entries :=
  match src, assoc name d with
  | Some (Dir sub), None => Ok (assoc_set name (Dir sub) d)
  | _, _ => Raise OSError
  end.

(** The logging and the dry-run gate common to [_DataModifyProxy.copy],
    [.copytree] and [.remove]; [act] is the call into [shutil] or [os]. *)
Definition proxy_do {S : Type} (proxy : _DataModifyProxy) (r : log_record)
    (act : S -> result S) (s : S) (t : trace) : result unit * S * trace :=
  let t := logged r t in
  if dry_run proxy then (Ok (), s, t)
  else match act s with
       | Ok s' => (Ok (), s', t)
       | Raise e => (Raise e, s, t)
       end.

(** [_DataModifyProxy.copy]; [shutil_copy] is the call of [shutil.copy] on
    the store that holds the two paths. *)
Definition copy {S : Type} (proxy : _DataModifyProxy) (src dst : string)
    (shutil_copy : S -> result S) (s : S) (t : trace) :=
  proxy_do proxy (LogCopy src dst) shutil_copy s t.

(** [_DataModifyProxy.copytree] *)
Definition copytree {S : Type} (proxy : _DataModifyProxy) (src dst : string)
    (shutil_copytree : S -> result S) (s : S) (t : trace) :=
  proxy_do proxy (LogCopytree src dst) shutil_copytree s t.

(** [_DataModifyProxy.remove] *)
Definition remove {S : Type} (proxy : _DataModifyProxy) (path : string)
    (os_remove : S -> result S) (s : S) (t : trace) :=
  proxy_do proxy (LogRemove path) os_remove s t.

(** ** The directory merge *)

(** [exclude and any([re.match(p, fn) for p in exclude])] *)
Definition excluded (exclude : list string) (fn : string) : bool :=
  existsb (fun p => re_match p fn) exclude.

Section merge_dirs_loops.
Variable merge_subdir :
  node -> string -> string -> node -> trace -> result unit * node * trace.
Variable fs_src : entries.
Variables src dst : string.
Variable exclude : list string.
Variable strategy : option callable.
Variable proxy : _DataModifyProxy.

(** [for fn in diff.left_only] *)
Fixpoint merge_left_only (fns : list string) (d : entries) (t : trace)
  : result unit * entries * trace :=
  match fns with
  | [] => (Ok (), d, t)
  | fn :: rest =>
      if excluded exclude fn then merge_left_only rest d (logged (LogExcluded fn) t)
      else
        let fn_src := path_join src fn in
        let fn_dst := path_join dst fn in
        let copied :=
          match assoc fn fs_src with
          | Some (File _) =>
              copy proxy fn_src fn_dst (shutil_copy (assoc fn fs_src) fn) d t
          | _ =>
              copytree proxy fn_src fn_dst (shutil_copytree (assoc fn fs_src) fn) d t
          end in
        match copied with
        | (Ok _, d, t) => merge_left_only rest d t
        | (Raise e, d, t) => (Raise e, d, t)
        end
  end.

(** [for fn in diff.diff_files] *)
Fixpoint merge_diff_files (fns : list string) (d : entries) (t : trace)
  : result unit * entries * trace :=
  match fns with
  | [] => (Ok (), d, t)
  | fn :: rest =>
      if excluded exclude fn then merge_diff_files rest d (logged (LogExcluded fn) t)
      else
        match strategy with
        | None => (Raise (MergeConflict fn), d, t)
        | Some f =>
            let fn_src := path_join src fn in
            let fn_dst := path_join dst fn in
            match call2 f fn_src fn_dst with
            | Raise e => (Raise e, d, t)
            | Ok true =>
                match copy proxy fn_src fn_dst
                        (shutil_copy (assoc fn fs_src) fn) d t with
                | (Ok _, d, t) => merge_diff_files rest d t
                | (Raise e, d, t) => (Raise e, d, t)
                end
            | Ok false => merge_diff_files rest d (logged (LogSkipFile fn) t)
            end
        end
  end.

(** The recursive call on the subdirectory [subdir]: it is looked up on both
    sides, and what the call does to the destination's subdirectory shows in
    the destination.  [os.listdir] of a missing directory raises. *)
Fixpoint merge_in_subdir (l : entries) (subdir : string) (d : entries)
    (t : trace) {struct l} : result unit * entries * trace :=
  match l with
  | [] => (Raise OSError, d, t)
  | (name, sub) :: l' =>
      if String.eqb subdir name then
        match assoc subdir d with
        | Some dsub =>
            match merge_subdir sub (path_join src subdir)
                    (path_join dst subdir) dsub t with
            | (r, dsub, t) => (r, assoc_set subdir dsub d, t)
            end
        | None => (Raise OSError, d, t)
        end
      else merge_in_subdir l' subdir d t
  end.

(** [for subdir in diff.subdirs] *)
Fixpoint merge_subdirs (names : list string) (d : entries) (t : trace)
  : result unit * entries * trace :=
  match names with
  | [] => (Ok (), d, t)
  | subdir :: rest =>
      match merge_in_subdir fs_src subdir d t with
      | (Ok _, d, t) => merge_subdirs rest d t
      | (Raise e, d, t) => (Raise e, d, t)
      end
  end.
End merge_dirs_loops.

(** [_merge_dirs(src, dst, exclude, strategy, proxy)]: merge two
    directories.  [fs_src] is the tree at the path [src], [fs_dst] the tree
    at the path [dst]. *)
Fixpoint _merge_dirs (fs_src : node) (src dst : string) (exclude : list string)
    (strategy : option callable) (proxy : _DataModifyProxy) (fs_dst : node)
    (t : trace) {struct fs_src} : result unit * node * trace :=
  match fs_src, fs_dst with
  | Dir a, Dir b =>
      match merge_left_only a src dst exclude proxy (left_only a b) b t with
      | (Raise e, d, t) => (Raise e, Dir d, t)
      | (Ok _, d, t) =>
          match merge_diff_files a src dst exclude strategy proxy
                  (diff_files a b) d t with
          | (Raise e, d, t) => (Raise e, Dir d, t)
          | (Ok _, d, t) =>
              match merge_subdirs
                      (fun s p q d t => _merge_dirs s p q exclude strategy proxy d t)
                      a src dst (subdirs a b) d t with
              | (r, d, t) => (r, Dir d, t)
              end
          end
      end
  | _, _ => (Raise OSError, fs_dst, t)
  end.

(** ** The transactional document merge *)

(** [os.path.isfile(path)] *)
Definition isfile (path : string) (fs : files) : bool :=
  bool_decide (is_Some (fs !! path)).

(** [shutil.copy(src, dst)] between two paths of the file store *)
Definition shutil_copy_file (src dst : string) (fs : files) : result files :=
  match fs !! src with
  | Some c => Ok (<[dst := c]> fs)
  | None => Raise OSError
  end.

(** [os.remove(path)] *)
Definition os_remove (path : string) (fs : files) : result files :=
  match fs !! path with
  | Some _ => Ok (delete path fs)
  | None => Raise OSError
  end.

(** A document, as the merge sees it: its items and the path of the file
    that backs it, if any.
    Modelled from the spec: the class of file-backed documents is not part
    of this module. *)
Record JSONDict := { _filename : option string; data : items }.

(** How a document is written to its file. *)
Variable dump : value -> string.

(** [_merge_dicts(src, dst, strategy, proxy)] where [dst] is a [JSONDict].
    Modelled from the spec: a file-backed document saves itself to its
    backing file each time an item is assigned in it or in a document nested
    in it.  Nothing reads the file during the merge, so the file is written
    here once, after the merge, when an assignment was performed. *)
Definition _merge_dicts_JSONDict (src : value) (dst : JSONDict)
    (strategy : option callable) (proxy : _DataModifyProxy) (fs : files)
    (t : trace) : result (gset string) * JSONDict * files * trace :=
  match _merge_dicts src (VDict (data dst)) strategy proxy t with
  | (r, v, t') =>
      let d := match v with VDict d => d | _ => data dst end in
      let fs' :=
        match _filename dst with
        | Some fn =>
            if Nat.ltb (assigned t) (assigned t')
            then <[fn := dump (VDict d)]> fs else fs
        | None => fs
        end in
      (r, {| _filename := _filename dst; data := d |}, fs', t')
  end.

(** [with proxy.create_backup(path) as fn_backup: body(fn_backup)] *)
Definition create_backup {A S : Type} (proxy : _DataModifyProxy) (path : string)
    (body : string -> S -> files -> trace -> result A * S * files * trace)
    (s : S) (fs : files) (t : trace) : result A * S * files * trace :=
  let t := logged (LogCreateBackup path) t in
  let path_backup := path +:+ "~" in
  if isfile path_backup fs then (Raise RuntimeError, s, fs, t)
  else
    let finally (r : result A) (s : S) (fs : files) (t : trace) :=
      let t := logged (LogRemoveBackup path) t in
      if dry_run proxy then (r, s, fs, t)
      else match os_remove path_backup fs with
           | Ok fs => (r, s, fs, t)
           | Raise error => (r, s, fs, logged (LogError error) t)
           end in
    let copied :=
      if dry_run proxy then Ok fs else shutil_copy_file path path_backup fs in
    match copied with
    | Raise e => finally (Raise e) s fs t
    | Ok fs =>
        match body path_backup s fs t with
        | (r, s, fs, t) => finally r s fs t
        end
    end.

(** [_merge_json_dicts(src, dst, strategy, proxy)] *)
Definition _merge_json_dicts (src : value) (dst : JSONDict)
    (strategy : option callable) (proxy : _DataModifyProxy) (fs : files)
    (t : trace) : result (gset string) * JSONDict * files * trace :=
  match _filename dst with
  | None => _merge_dicts_JSONDict src dst strategy proxy fs t
  | Some fn =>
      if negb (isfile fn fs) then _merge_dicts_JSONDict src dst strategy proxy fs t
      else
        create_backup proxy fn
          (fun fn_backup dst fs t =>
             match _merge_dicts_JSONDict src dst strategy proxy fs t with
             | (Ok sk, dst, fs, t) => (Ok sk, dst, fs, t)
             | (Raise e, dst, fs, t) =>
                 let t := logged LogRestoringBackup t in
                 match copy proxy fn_backup fn (shutil_copy_file fn_backup fn) fs t with
                 | (Ok _, fs, t) => (Raise e, dst, fs, t)
                 | (Raise e', fs, t) => (Raise e', dst, fs, t)
                 end
             end)
          dst fs t
  end.

(** ** Jobs and projects *)

(** A job, as the merge sees it.
    Modelled from the spec: the job class is not part of this module.  A
    unit has a kind, a stable id, two reserved file names, a workspace
    directory and a document; [tree] is the directory tree at
    [workspace]. *)
Record Job := {
  kind : string;
  get_id : string;
  FN_MANIFEST : string;
  FN_DOCUMENT : string;
  workspace : string;
  tree : node;
  doc : JSONDict
}.

(** A project, as the merge sees it.
    Modelled from the spec: the project class is not part of this module.
    A repository has a root directory, a repository-level document and a
    collection of units. *)
Record Project := {
  root_directory : string;
  document : JSONDict;
  jobs : list Job
}.

(** What a merge works on besides the destination itself: the files that
    back documents, the list objects that callers and callees share, by
    reference, and the trace. *)
Record world := World {
  backing : files;
  heap : list (list string);
  tr : trace
}.

(** The [exclude] argument: [None], a list object, or another value, which
    stands for one pattern. *)
Inductive exclude_arg :=
| ExcludeNone
| ExcludeList (ref : nat)
| ExcludePattern (p : string).

(** The [dry_run] argument of [merge_jobs]: a proxy or a truth value. *)
Inductive dry_run_arg :=
| DryRunProxy (proxy : _DataModifyProxy)
| DryRunFlag (b : bool).

Definition with_tree (j : Job) (fs : node) : Job :=
  {| kind := kind j; get_id := get_id j; FN_MANIFEST := FN_MANIFEST j;
     FN_DOCUMENT := FN_DOCUMENT j; workspace := workspace j;
     tree := fs; doc := doc j |}.

Definition with_doc (j : Job) (d : JSONDict) : Job :=
  {| kind := kind j; get_id := get_id j; FN_MANIFEST := FN_MANIFEST j;
     FN_DOCUMENT := FN_DOCUMENT j; workspace := workspace j;
     tree := tree j; doc := d |}.

(** The four assertions of [merge_jobs]: the two jobs are of the same type
    and have the same id and the same reserved file names. *)
Definition same_job (src_job dst_job : Job) : bool :=
  String.eqb (kind src_job) (kind dst_job)
  && String.eqb (get_id src_job) (get_id dst_job)
  && String.eqb (FN_MANIFEST src_job) (FN_MANIFEST dst_job)
  && String.eqb (FN_DOCUMENT src_job) (FN_DOCUMENT dst_job).

(** [merge_jobs(src_job, dst_job, exclude, strategy, doc_strategy, dry_run)]:
    merge two jobs. *)
Definition merge_jobs (src_job dst_job : Job) (exclude : exclude_arg)
    (strategy doc_strategy : option callable) (dry_run : dry_run_arg)
    (w : world) : result (gset string) * Job * world :=
  let '(exclude, hp) :=
    match exclude with
    | ExcludeNone => (length (heap w), (heap w ++ [[]])%list)
    | ExcludePattern p => (length (heap w), (heap w ++ [[p]])%list)
    | ExcludeList ref => (ref, heap w)
    end in
  let proxy :=
    match dry_run with
    | DryRunProxy proxy => proxy
    | DryRunFlag b => {| dry_run := b |}
    end in
  let t := logged (LogMergingJob (get_id src_job) (proxy_dry_run proxy)) (tr w) in
  if negb (same_job src_job dst_job)
  then (Raise AssertionError, dst_job, World (backing w) hp t)
  else
    let hp := alter (fun l => (l ++ [FN_MANIFEST src_job; FN_DOCUMENT src_job])%list)
                exclude hp in
    match _merge_dirs (tree src_job) (workspace src_job) (workspace dst_job)
            (hp !!! exclude) strategy proxy (tree dst_job) t with
    | (Raise e, fs, t) => (Raise e, with_tree dst_job fs, World (backing w) hp t)
    | (Ok _, fs, t) =>
        match _merge_json_dicts (VDict (data (doc src_job))) (doc dst_job)
                doc_strategy proxy (backing w) t with
        | (r, d, bk, t) => (r, with_doc (with_tree dst_job fs) d, World bk hp t)
        end
    end.

(** How a project infers its schema. *)
Variable detect_schema : Project -> schema.

(** [source == destination].
    Modelled from the spec: two projects are identical when they resolve to
    the same repository, that is, to the same root directory. *)
Definition same_project (source destination : Project) : bool :=
  String.eqb (root_directory source) (root_directory destination).

Definition has_job (p : Project) (id : string) : bool :=
  existsb (fun j => String.eqb (get_id j) id) (jobs p).

(** [destination.open_job(id=...)] *)
Definition open_job (p : Project) (id : string) : result Job :=
  match find (fun j => String.eqb (get_id j) id) (jobs p) with
  | Some j => Ok j
  | None => Raise KeyError
  end.

Fixpoint replace_job (j : Job) (l : list Job) : list Job :=
  match l with
  | [] => []
  | j' :: l' =>
      if String.eqb (get_id j') (get_id j) then j :: l' else j' :: replace_job j l'
  end.

(** The project after the job that [open_job] returned has been changed in
    place. *)
Definition with_job (p : Project) (j : Job) : Project :=
  {| root_directory := root_directory p; document := document p;
     jobs := replace_job j (jobs p) |}.

(** [destination.clone(job)].
    Modelled from the spec: cloning raises [DestinationExistsError] if the
    destination already has a unit with that id, and otherwise copies the
    unit into the destination as a new unit: its workspace tree, with the
    file that backs its document, is copied under the destination's root. *)
Definition clone (destination : Project) (job : Job) (bk : files)
  : result unit * Project * files :=
  if has_job destination (get_id job) then (Raise DestinationExistsError, destination, bk)
  else
    let ws := path_join (path_join (root_directory destination) "workspace")
                (get_id job) in
    let fn := path_join ws (FN_DOCUMENT job) in
    let bk' :=
      match _filename (doc job) ≫= (fun f => bk !! f) with
      | Some c => <[fn := c]> bk
      | None => bk
      end in
    let job' :=
      {| kind := kind job; get_id := get_id job; FN_MANIFEST := FN_MANIFEST job;
         FN_DOCUMENT := FN_DOCUMENT job; workspace := ws; tree := tree job;
         doc := {| _filename := (fun _ => fn) <$> _filename (doc job);
                   data := data (doc job) |} |} in
    (Ok (),
     {| root_directory := root_directory destination;
        document := document destination;
        jobs := (jobs destination ++ [job'])%list |},
     bk').

Definition with_trace (w : world) (t : trace) : world :=
  World (backing w) (heap w) t.

Section merge_projects_loop.
Variable exclude : exclude_arg.
Variables strategy doc_strategy : option callable.
Variable selection : option (gset string).
Variable proxy : _DataModifyProxy.

(** [for src_job in source] *)
Fixpoint merge_each_job (src_jobs : list Job) (destination : Project)
    (skipped_keys : gset string) (cloned merged : nat) (w : world)
  : result (gset string * nat * nat) * Project * world :=
  match src_jobs with
  | [] => (Ok (skipped_keys, cloned, merged), destination, w)
  | src_job :: rest =>
      let unselected :=
        match selection with
        | Some sel => bool_decide (get_id src_job ∉ sel)
        | None => false
        end in
      if unselected then
        merge_each_job rest destination skipped_keys cloned merged
          (with_trace w (logged (LogNotInSelection (get_id src_job)) (tr w)))
      else
        match clone destination src_job (backing w) with
        | (Ok _, destination, bk) =>
            merge_each_job rest destination skipped_keys (S cloned) merged
              (World bk (heap w) (logged (LogClonedJob (get_id src_job)) (tr w)))
        | (Raise DestinationExistsError, destination, bk) =>
            match open_job destination (get_id src_job) with
            | Raise e => (Raise e, destination, World bk (heap w) (tr w))
            | Ok dst_job =>
                match merge_jobs src_job dst_job exclude strategy doc_strategy
                        (DryRunProxy proxy) (World bk (heap w) (tr w)) with
                | (Raise e, dst_job, w) => (Raise e, with_job destination dst_job, w)
                | (Ok sk, dst_job, w) =>
                    merge_each_job rest (with_job destination dst_job)
                      (skipped_keys ∪ sk) cloned (S merged)
                      (with_trace w (logged (LogMergedJob (get_id src_job)) (tr w)))
                end
            end
        | (Raise e, destination, bk) => (Raise e, destination, World bk (heap w) (tr w))
        end
  end.
End merge_projects_loop.

(** [merge_projects(source, destination, exclude, strategy, doc_strategy,
    selection, check_schema, dry_run)]: merge the source project into the
    destination project.  [selection] holds the [str] of each selected job
    or job id. *)
Definition merge_projects (source destination : Project) (exclude : exclude_arg)
    (strategy doc_strategy : option callable) (selection : option (list string))
    (check_schema : bool) (dry_run : bool) (w : world)
  : result (gset string) * Project * world :=
  if same_project source destination then (Raise ValueError, destination, w)
  else
    let proxy := Build__DataModifyProxy dry_run in
    let schema_src := detect_schema source in
    let schema_dst := detect_schema destination in
    if check_schema
       && bool_decide (schema_dst ≠ ∅) && bool_decide (schema_src ≠ schema_dst)
       && (bool_decide (schema_src ∖ schema_dst ≠ ∅)
           || bool_decide (schema_dst ∖ schema_src ≠ ∅))
    then (Raise (MergeSchemaConflict schema_src schema_dst), destination, w)
    else
      let selection : option (gset string) := list_to_set <$> selection in
      let t := tr w in
      let t :=
        match selection with
        | Some sel =>
            if bool_decide (sel ≠ ∅)
            then logged (LogMergingSelection (size sel) (root_directory source)
                           (root_directory destination)) t
            else logged (LogMergingProject (root_directory source)
                           (root_directory destination)) t
        | None => logged (LogMergingProject (root_directory source)
                            (root_directory destination)) t
        end in
      let t := logged (LogRoots (root_directory source)
                         (root_directory destination)) t in
      let t := if dry_run then logged LogDryRun t else t in
      let t := match exclude with
               | ExcludeNone => t
               | _ => logged LogExcludePattern t
               end in
      let t := logged LogMergeStrategy t in
      match _merge_json_dicts (VDict (data (document source)))
              (document destination) doc_strategy proxy (backing w) t with
      | (Raise e, d, bk, t) =>
          (Raise e,
           {| root_directory := root_directory destination; document := d;
              jobs := jobs destination |},
           World bk (heap w) t)
      | (Ok skipped_keys, d, bk, t) =>
          let destination :=
            {| root_directory := root_directory destination; document := d;
               jobs := jobs destination |} in
          match merge_each_job exclude strategy doc_strategy selection proxy
                  (jobs source) destination skipped_keys 0 0
                  (World bk (heap w) t) with
          | (Raise e, destination, w) => (Raise e, destination, w)
          | (Ok (skipped_keys, cloned, merged), destination, w) =>
              let t := logged (LogSummary cloned merged) (tr w) in
              let t :=
                if bool_decide (skipped_keys ≠ ∅)
                then logged (LogSkippedKeys skipped_keys)
                       (logged (LogSkippedCount (size skipped_keys)) t)
                else t in
              (Ok skipped_keys, destination, with_trace w t)
          end
      end.

End sync.

(** * Vocabulary of the properties *)

(** The document counterparts of [theirs] and [ours]: strategies of one
    argument, the conflicting key. *)
Definition always : callable := Fn1 (fun key => Ok true).
Definition never : callable := Fn1 (fun key => Ok false).

(** The trace before anything was logged or assigned. *)
Definition no_trace : trace := Trace [] 0.

(** The proxy of a merge that is not a dry run. *)
Definition real : _DataModifyProxy := {| dry_run := false |}.

(** A document whose dictionaries, at every depth, have distinct keys: what
    a Python [dict] is by construction. *)
Fixpoint well_formed (v : value) : Prop :=
  match v with
  | VDict d =>
      NoDup (keys d) /\
      (fix all (l : items) : Prop :=
         match l with
         | [] => True
         | (_, v) :: l' => well_formed v /\ all l'
         end) d
  | _ => True
  end.

(** The node at a relative path, given by its components. *)
Fixpoint lookup_path (p : list string) (n : node) : option node :=
  match p with
  | [] => Some n
  | x :: p' =>
      match n with
      | Dir d => match assoc x d with
                 | Some c => lookup_path p' c
                 | None => None
                 end
      | File _ => None
      end
  end.

(** What every step of the three loops keeps: the node at [p]. *)
Definition same_at (p : list string) (d d' : entries) : Prop :=
  lookup_path p (Dir d') = lookup_path p (Dir d).

(** The property of a source tree that the induction carries. *)
Definition keeps_dst_only (re_match : string -> string -> bool) (now : Z)
    (n : node) : Prop :=
  forall src dst exclude strategy proxy fs_dst t r n' t' p,
    _merge_dirs re_match now n src dst exclude strategy proxy fs_dst t = (r, n', t') ->
    lookup_path p n = None ->
    lookup_path p n' = lookup_path p fs_dst.

(** A regular file with the bytes [c], last modified at [m]. *)
Definition regular (c : string) (m : Z) : node := File (RegularFile c m).

(** A call that started from the trace [t] and ended with [t'] would, from
    [t0], end with [t0']: the same number of assignments was performed; under
    a dry run, none was, and the object [v] is the object [v0] it was. *)
Definition same_effect (proxy : _DataModifyProxy) (t t' t0 t0' : trace)
    (v0 v : value) : Prop :=
  (assigned t0' + assigned t = assigned t' + assigned t0)%nat /\
  (dry_run proxy = true -> assigned t' = assigned t /\ v = v0).

(** What a merge does, and whether it raises, does not depend on the trace
    it starts from. *)
Definition trace_blind (proxy : _DataModifyProxy)
    (f : value -> trace -> result (gset string) * value * trace) : Prop :=
  forall dst t t0 r v t',
    f dst t = (r, v, t') ->
    exists t0', f dst t0 = (r, v, t0') /\ same_effect proxy t t' t0 t0' dst v.

(** A strategy that fails on the key [b]: the failure comes after the key
    [a] has been merged. *)
Definition fails_on_b : callable :=
  Fn1 (fun key => if String.eqb key "b" then Raise (UserError "boom") else Ok true).

(** A document that no file backs. *)
Definition transient (d : items) : JSONDict := {| _filename := None; data := d |}.

(** A job with the reserved file names of the job class. *)
Definition job (id : string) (ws : string) (fs : node) (d : JSONDict) : Job :=
  {| kind := "Job"; get_id := id; FN_MANIFEST := "signac_statepoint.json";
     FN_DOCUMENT := "signac_job_document.json"; workspace := ws; tree := fs;
     doc := d |}.

(** The keys that the documents of the jobs of a project use. *)
Definition document_keys (p : Project) : schema :=
  list_to_set (flat_map (fun j => keys (data (doc j))) (jobs p)).

(** No file, no list object, no trace. *)
Definition empty_world : world := World ∅ [] no_trace.

(** The two reserved file names of a job. *)
Definition reserved (j : Job) : list string := [FN_MANIFEST j; FN_DOCUMENT j].

(** A strategy that never lets the source win: no strategy at all, or one
    that answers false for every key. *)
Definition declines (strategy : option callable) : Prop :=
  match strategy with
  | None => True
  | Some f => forall key, call1 f key = Ok false
  end.

(** A strategy that lets the source win for every key. *)
Definition accepts (strategy : option callable) : Prop :=
  match strategy with
  | None => False
  | Some f => forall key, call1 f key = Ok true
  end.

(** The keys of a document value, at every depth. *)
Fixpoint all_keys (v : value) : gset string :=
  match v with
  | VDict d =>
      (fix go (l : items) : gset string :=
         match l with
         | [] => ∅
         | (k, v) :: l' => {[k]} ∪ all_keys v ∪ go l'
         end) d
  | _ => ∅
  end.

(** A file strategy that never lets the source win: no strategy at all, or
    one that never answers true, as [ours]. *)
Definition keeps_theirs_out (strategy : option callable) : Prop :=
  match strategy with
  | None => True
  | Some f => forall fn_src fn_dst, call2 f fn_src fn_dst <> Ok true
  end.

(** What [copy] (for a file) and [copytree] (for a directory) leave at the
    destination for the source node [n]. *)
Definition copied (now : Z) (n : node) : node :=
  match n with
  | File f => File (RegularFile (content f) now)
  | Dir sub => Dir sub
  end.

(** The names that [dircmp] does not list. *)
Definition ignored (x : string) : bool :=
  mem x ([("."); ("..")] ++ DEFAULT_IGNORES)%list.


(** Whether the project merge takes the source job with this id. *)
Definition selected (selection : option (gset string)) (id : string) : bool :=
  match selection with
  | Some sel => bool_decide (id ∈ sel)
  | None => true
  end.

(** The ids of the jobs of a project, in order. *)
Definition job_ids (p : Project) : list string := map get_id (jobs p).

(** The jobs of a project that have the id [id]. *)
Definition jobs_with_id (id : string) (p : Project) : list Job :=
  filter (fun j => get_id j = id) (jobs p).

(** * Properties *)

(** ** Induction principles *)

(** Induction on document values, with the hypothesis for every item. *)
Lemma value_rect' (P : value -> Prop) :
  P VNone -> (forall b, P (VBool b)) -> (forall n, P (VInt n)) ->
  (forall s, P (VStr s)) ->
  (forall d, Forall (fun e => P e.2) d -> P (VDict d)) ->
  forall v, P v.
Proof.
  intros H0 Hb Hn Hs Hd. fix IH 1.
  intros [|b|n|s|d]; [exact H0 | apply Hb | apply Hn | apply Hs |].
  apply Hd. induction d as [|[k v] d IHd]; constructor; [apply IH | apply IHd].
Qed.

(** Induction on directory trees, with the hypothesis for every entry. *)
Lemma node_rect' (P : node -> Prop) :
  (forall f, P (File f)) ->
  (forall d, Forall (fun e => P e.2) d -> P (Dir d)) ->
  forall n, P n.
Proof.
  intros Hf Hd. fix IH 1. intros [f|d]; [apply Hf|].
  apply Hd. induction d as [|[x n] d IHd]; constructor; [apply IH | apply IHd].
Qed.

(** ** The document merge *)

Lemma merge_dicts_short_circuit src dst strategy proxy t :
  py_eq src dst = true ->
  _merge_dicts src dst strategy proxy t = (Ok ∅, dst, t).
Proof.
  intros Heq. destruct src; simpl; simpl in Heq; rewrite Heq; reflexivity.
Qed.

(** C9: merging a document with a structurally equal one, under any
    strategy (also none) and any proxy, returns the empty set of skipped
    keys, calls no proxy method (the trace is the one before the call) and
    leaves the destination as it is. *)
Theorem merge_dicts_equal (src dst : value) (strategy : option callable)
    (proxy : _DataModifyProxy) (t : trace) :
  py_eq src dst = true ->
  _merge_dicts src dst strategy proxy t = (Ok ∅, dst, t).
Proof. apply merge_dicts_short_circuit. Qed.

Lemma merge_dicts_equal_witness :
  let d := VDict [("a", VInt 1); ("b", VDict [("c", VStr "x")])] in
  let d' := VDict [("b", VDict [("c", VStr "x")]); ("a", VInt 1)] in
  py_eq d d' = true /\
  _merge_dicts d d' (Some always) real no_trace = (Ok ∅, d', no_trace).
Proof.
  split; [reflexivity | apply merge_dicts_equal; reflexivity].
Defined.

(** ** Structural equality *)

Lemma assoc_In_NoDup {A} k (v : A) d :
  NoDup (keys d) -> (k, v) ∈ d -> assoc k d = Some v.
Proof.
  induction d as [|[k' v'] d IH]; simpl; intros Hnd Hin; [by apply elem_of_nil in Hin|].
  apply NoDup_cons in Hnd as [Hk' Hnd].
  apply elem_of_cons in Hin as [[= -> ->]|Hin].
  - by rewrite String.eqb_refl.
  - destruct (String.eqb_spec k k') as [->|Hne]; [|by apply IH].
    exfalso. apply Hk'. apply list_elem_of_fmap. by exists (k', v).
Qed.

(** A document is equal to itself. *)
Lemma py_eq_refl v : well_formed v -> py_eq v v = true.
Proof.
  induction v as [| b | n | s | d IH] using value_rect'; simpl; intros Hwf.
  - done.
  - by destruct b.
  - apply Z.eqb_refl.
  - apply String.eqb_refl.
  - destruct Hwf as [Hnd Hwf]. rewrite Nat.eqb_refl. simpl.
    assert (Hsub : forall l, l ⊆ d ->
      Forall (fun e => well_formed e.2 -> py_eq e.2 e.2 = true) l ->
      (fix all (l : items) : Prop :=
         match l with
         | [] => True
         | (_, v) :: l' => well_formed v /\ all l'
         end) l ->
      (fix all_in (l : items) : bool :=
         match l with
         | [] => true
         | (k, v) :: l' =>
             match assoc k d with
             | Some w => py_eq v w && all_in l'
             | None => false
             end
         end) l = true).
    { induction l as [|[k v] l IHl]; intros Hl Hall Hwfl; [done|].
      apply Forall_cons in Hall as [Hv Hall]. destruct Hwfl as [Hwv Hwfl].
      rewrite (assoc_In_NoDup k v d Hnd) by set_solver.
      simpl in Hv. rewrite (Hv Hwv). simpl. apply IHl; [set_solver|done..]. }
    by apply Hsub.
Qed.

(** Merging a document into itself does nothing. *)
Lemma merge_dicts_self d strategy proxy t :
  well_formed d -> _merge_dicts d d strategy proxy t = (Ok ∅, d, t).
Proof. intros Hwf. by apply merge_dicts_short_circuit, py_eq_refl. Qed.

(** C8, as stated: the built-in [theirs] takes two paths; the document merge
    calls its strategy with the conflicting key alone, so with [theirs] the
    call raises [TypeError] at the key [a] and nothing is merged. *)
Lemma merge_dicts_theirs_raises :
  _merge_dicts (VDict [("a", VInt 1); ("b", VInt 2)]) (VDict [("a", VInt 99)])
    (Some theirs) real no_trace
  = (Raise TypeError, VDict [("a", VInt 99)], no_trace).
Proof. reflexivity. Qed.

(** C8, amended: with a strategy of one argument that always returns true
    the merge of [{a: 1, b: 2}] into [{a: 99}] yields [{a: 1, b: 2}] and no
    skipped key; with one that always returns false it yields
    [{a: 99, b: 2}] and the skipped key [a]. *)
Theorem merge_dicts_always_never :
  let src := VDict [("a", VInt 1); ("b", VInt 2)] in
  let dst := VDict [("a", VInt 99)] in
  (exists t, _merge_dicts src dst (Some always) real no_trace
             = (Ok ∅, VDict [("a", VInt 1); ("b", VInt 2)], t)) /\
  (exists t, _merge_dicts src dst (Some never) real no_trace
             = (Ok {["a"]}, VDict [("a", VInt 99); ("b", VInt 2)], t)).
Proof.
  split; eexists; vm_compute; reflexivity.
Qed.

Lemma assoc_set_ne {A} (k k' : string) (v : A) (l : list (string * A)) :
  k ≠ k' -> assoc k (assoc_set k' v l) = assoc k l.
Proof.
  intros Hne. induction l as [|[k0 v0] l IH]; simpl.
  - destruct (String.eqb_spec k k'); congruence.
  - destruct (String.eqb_spec k' k0) as [->|Hk]; simpl.
    + destruct (String.eqb_spec k k0); congruence.
    + destruct (String.eqb_spec k k0); congruence.
Qed.

Lemma assoc_set_eq {A} (k : string) (v : A) (l : list (string * A)) :
  assoc k (assoc_set k v l) = Some v.
Proof.
  induction l as [|[k0 v0] l IH]; simpl.
  - by rewrite String.eqb_refl.
  - destruct (String.eqb_spec k k0) as [->|Hk]; simpl.
    + by rewrite String.eqb_refl.
    + destruct (String.eqb_spec k k0); congruence.
Qed.

Lemma set_value_keeps proxy d k v t r doc' t' key :
  key ≠ k ->
  set_value proxy (VDict d) k v t = (r, doc', t') ->
  exists d', doc' = VDict d' /\ assoc key d' = assoc key d.
Proof.
  intros Hne. unfold set_value. destruct (dry_run proxy); simpl; intros [= <- <- <-].
  - eauto.
  - eexists; split; [reflexivity | by apply assoc_set_ne].
Qed.

Lemma merge_items_keeps mn strategy proxy key :
  forall src d sk t r v t',
    assoc key src = None ->
    merge_items mn strategy proxy src (VDict d) sk t = (r, v, t') ->
    exists d', v = VDict d' /\ assoc key d' = assoc key d.
Proof.
  induction src as [|[k val] rest IH]; simpl; intros d sk t r v t' Hk H.
  - injection H as <- <- <-. eauto.
  - destruct (String.eqb_spec key k) as [->|Hne]; [discriminate|].
    assert (Hassign : forall d1 t1,
      assoc key d1 = assoc key d ->
      match set_value proxy (VDict d1) k val t1 with
      | (Ok _, dst, t) => merge_items mn strategy proxy rest dst sk t
      | (Raise e, dst, t) => (Raise e, dst, t)
      end = (r, v, t') ->
      exists d', v = VDict d' /\ assoc key d' = assoc key d).
    { intros d1 t1 Hd1 H1.
      destruct (set_value proxy (VDict d1) k val t1) as [[r1 v1] t1'] eqn:Hs.
      destruct (set_value_keeps _ _ _ _ _ _ _ _ key Hne Hs) as (d2 & -> & Hd2).
      destruct r1.
      - destruct (IH _ _ _ _ _ _ Hk H1) as (d' & -> & Hd'). exists d'. split; congruence.
      - injection H1 as <- <- <-. exists d2. split; congruence. }
    destruct (bool_decide (is_Some (assoc k d))); [|by eapply Hassign].
    destruct (assoc k d) as [dv|]; [|by injection H as <- <- <-; eauto].
    destruct (py_eq dv val); [by eapply IH|].
    destruct strategy as [f|]; [|by eapply IH].
    destruct (call1 f k) as [[]|e]; [| by eapply IH | by injection H as <- <- <-; eauto].
    destruct (is_Mapping val); [|by eapply Hassign].
    destruct (mn val dv t) as [[r1 nested] t1].
    assert (Hwb : assoc key (assoc_set k nested d) = assoc key d) by by apply assoc_set_ne.
    destruct r1 as [sk1|e].
    + destruct (IH _ _ _ _ _ _ Hk H) as (d' & -> & Hd'). exists d'. split; congruence.
    + destruct e; try (injection H as <- <- <-; eauto).
      eapply Hassign; eauto.
Qed.

(** The document half of C6. *)
Lemma merge_dicts_keeps_dst_only (src : items) (d : items) strategy proxy t r v t' key :
  assoc key src = None ->
  _merge_dicts (VDict src) (VDict d) strategy proxy t = (r, v, t') ->
  exists d', v = VDict d' /\ assoc key d' = assoc key d.
Proof.
  intros Hk. cbn [_merge_dicts].
  destruct (py_eq (VDict src) (VDict d)).
  - intros [= <- <- <-]. eauto.
  - by apply merge_items_keeps.
Qed.

(** C4, at an input where the code departs from the claim: the source has a
    nested document where the destination has a number; the strategy says to
    overwrite; the recursive call raises [TypeError], which is not the
    [KeyError] that the caller handles, and the destination keeps its
    value. *)
Theorem merge_dicts_nested_over_scalar_raises :
  _merge_dicts (VDict [("a", VDict [("x", VInt 1)])]) (VDict [("a", VInt 5)])
    (Some always) real no_trace
  = (Raise TypeError, VDict [("a", VInt 5)], no_trace).
Proof. reflexivity. Qed.

(** What holds of C4: on a key that both documents have with unequal values,
    when the strategy says to overwrite and the source value is a scalar,
    [set_value] is applied, and the loop goes on with the next key. *)
Lemma merge_items_overwrites_with_scalar mn f proxy key value rest d dv sk t :
  assoc key d = Some dv ->
  py_eq dv value = false ->
  call1 f key = Ok true ->
  is_Mapping value = false ->
  merge_items mn (Some f) proxy ((key, value) :: rest) (VDict d) sk t
  = match set_value proxy (VDict d) key value t with
    | (Ok _, dst, t) => merge_items mn (Some f) proxy rest dst sk t
    | (Raise e, dst, t) => (Raise e, dst, t)
    end.
Proof.
  intros Hd Hne Hf Hv. simpl. rewrite Hd.
  rewrite bool_decide_eq_true_2 by eauto. by rewrite Hne, Hf, Hv.
Qed.

(** The other half fails whenever the destination has [None], a truth value
    or a number where the source has a nested document that is not empty. *)
Lemma merge_dicts_into_scalar_raises k v src dst strategy proxy t :
  match dst with VNone | VBool _ | VInt _ => True | _ => False end ->
  _merge_dicts (VDict ((k, v) :: src)) dst strategy proxy t
  = (Raise TypeError, dst, t).
Proof. by destruct dst. Qed.

(** ** The directory merge *)

Section dirs_keep.
Variable re_match : string -> string -> bool.
Variable now : Z.

Lemma proxy_copy_same_at proxy s q a fn d t r d' t' p :
  lookup_path p (Dir a) = None ->
  copy proxy s q (shutil_copy now (assoc fn a) fn) d t = (r, d', t') ->
  same_at p d d'.
Proof.
  unfold copy, proxy_do, same_at. intros Hp.
  destruct (dry_run proxy); [by intros [= <- <- <-]|].
  unfold shutil_copy.
  destruct (assoc fn a) as [[f|sub]|] eqn:Ha; try by intros [= <- <- <-].
  destruct p as [|x p']; [done|].
  assert (Hne : p' <> [] \/ x <> fn).
  { destruct p'; [|by left]. right. intros ->. simpl in Hp. by rewrite Ha in Hp. }
  destruct (assoc fn d) as [[f'|sub']|] eqn:Hd; intros [= <- <- <-]; try done.
  all: simpl; destruct (String.eqb_spec x fn) as [->|Hx].
  all: rewrite ?assoc_set_eq, ?Hd; try (rewrite assoc_set_ne; done).
  all: destruct p'; [destruct Hne; done | done].
Qed.

Lemma proxy_copytree_same_at proxy s q a fn d t r d' t' p :
  lookup_path p (Dir a) = None ->
  copytree proxy s q (shutil_copytree (assoc fn a) fn) d t = (r, d', t') ->
  same_at p d d'.
Proof.
  unfold copytree, proxy_do, same_at. intros Hp.
  destruct (dry_run proxy); [by intros [= <- <- <-]|].
  unfold shutil_copytree.
  destruct (assoc fn a) as [[f|sub]|] eqn:Ha; try by intros [= <- <- <-].
  destruct (assoc fn d) as [c|] eqn:Hd; intros [= <- <- <-]; try done.
  destruct p as [|x p']; [done|]. simpl in *.
  destruct (String.eqb_spec x fn) as [->|Hx].
  - rewrite assoc_set_eq, Hd. by rewrite Ha in Hp.
  - by rewrite assoc_set_ne.
Qed.

Lemma merge_left_only_same_at a src dst exclude proxy p :
  lookup_path p (Dir a) = None ->
  forall fns d t r d' t',
    merge_left_only re_match now a src dst exclude proxy fns d t = (r, d', t') ->
    same_at p d d'.
Proof.
  intros Hp. induction fns as [|fn fns IH]; simpl; intros d t r d' t' H.
  - by injection H as <- <- <-.
  - destruct (excluded re_match exclude fn); [by eapply IH|].
    match type of H with (match ?c with _ => _ end) = _ =>
      destruct c as [[r1 d1] t1] eqn:Hc end.
    assert (Hs : same_at p d d1).
    { destruct (assoc fn a) as [[f|sub]|] eqn:Ha.
      - rewrite <- Ha in Hc. by eapply proxy_copy_same_at.
      - rewrite <- Ha in Hc. by eapply proxy_copytree_same_at.
      - rewrite <- Ha in Hc. by eapply proxy_copytree_same_at. }
    destruct r1.
    + apply IH in H. unfold same_at in *. congruence.
    + by injection H as <- <- <-.
Qed.

Lemma merge_diff_files_same_at a src dst exclude strategy proxy p :
  lookup_path p (Dir a) = None ->
  forall fns d t r d' t',
    merge_diff_files re_match now a src dst exclude strategy proxy fns d t
    = (r, d', t') ->
    same_at p d d'.
Proof.
  intros Hp. induction fns as [|fn fns IH]; simpl; intros d t r d' t' H.
  - by injection H as <- <- <-.
  - destruct (excluded re_match exclude fn); [by eapply IH|].
    destruct strategy as [f|]; [|by injection H as <- <- <-].
    destruct (call2 f _ _) as [[]|e]; [| by eapply IH | by injection H as <- <- <-].
    match type of H with (match ?c with _ => _ end) = _ =>
      destruct c as [[r1 d1] t1] eqn:Hc end.
    assert (Hs : same_at p d d1) by by eapply proxy_copy_same_at.
    destruct r1.
    + apply IH in H. unfold same_at in *. congruence.
    + by injection H as <- <- <-.
Qed.
End dirs_keep.

Section dirs_keep_rec.
Variable re_match : string -> string -> bool.
Variable now : Z.

Lemma merge_in_subdir_other rec src dst subdir x :
  x <> subdir ->
  forall l d t r d' t',
    merge_in_subdir rec src dst l subdir d t = (r, d', t') ->
    assoc x d' = assoc x d.
Proof.
  intros Hx. induction l as [|[name sub] l IH]; simpl; intros d t r d' t' H.
  - by injection H as <- <- <-.
  - destruct (String.eqb subdir name); [|by eapply IH].
    destruct (assoc subdir d) as [dsub|]; [|by injection H as <- <- <-].
    destruct (rec sub _ _ dsub t) as [[r1 dsub'] t1].
    injection H as <- <- <-. by apply assoc_set_ne.
Qed.

Lemma merge_in_subdir_same_at rec src dst subdir p :
  forall l,
    Forall (fun e => forall s q dn t r n' t' p',
              rec e.2 s q dn t = (r, n', t') ->
              lookup_path p' e.2 = None ->
              lookup_path p' n' = lookup_path p' dn) l ->
    lookup_path p (Dir l) = None ->
    forall d t r d' t',
      merge_in_subdir rec src dst l subdir d t = (r, d', t') ->
      same_at p d d'.
Proof.
  destruct p as [|x p']; [done|].
  destruct (decide (x = subdir)) as [->|Hx].
  - induction l as [|[name sub] l IH]; simpl; intros Hall Hp d t r d' t' H.
    + by injection H as <- <- <-.
    + inversion Hall as [|? ? Hsub Hall']; subst. simpl in Hsub.
      destruct (String.eqb_spec subdir name) as [->|Hne]; [|by eapply IH].
      destruct (assoc name d) as [dsub|] eqn:Hd; [|by injection H as <- <- <-].
      destruct (rec sub _ _ dsub t) as [[r1 dsub'] t1] eqn:Hrec.
      injection H as <- <- <-. unfold same_at. simpl.
      rewrite assoc_set_eq, Hd. eapply Hsub; eauto.
  - intros l _ _ d t r d' t' H. unfold same_at. simpl.
    by rewrite (merge_in_subdir_other _ _ _ _ _ Hx _ _ _ _ _ _ H).
Qed.

Lemma merge_subdirs_same_at rec a src dst p :
  Forall (fun e => forall s q dn t r n' t' p',
            rec e.2 s q dn t = (r, n', t') ->
            lookup_path p' e.2 = None ->
            lookup_path p' n' = lookup_path p' dn) a ->
  lookup_path p (Dir a) = None ->
  forall names d t r d' t',
    merge_subdirs rec a src dst names d t = (r, d', t') ->
    same_at p d d'.
Proof.
  intros Hall Hp. induction names as [|subdir names IH]; simpl; intros d t r d' t' H.
  - by injection H as <- <- <-.
  - destruct (merge_in_subdir rec src dst a subdir d t) as [[r1 d1] t1] eqn:H1.
    apply merge_in_subdir_same_at with (p := p) in H1; [|done..].
    destruct r1.
    + apply IH in H. unfold same_at in *. congruence.
    + by injection H as <- <- <-.
Qed.

Lemma merge_dirs_keeps_dst_only : forall n, keeps_dst_only re_match now n.
Proof.
  induction n as [f|a IH] using node_rect'; unfold keeps_dst_only;
    intros src dst exclude strategy proxy fs_dst t r n' t' p H Hp.
  - simpl in H. by injection H as <- <- <-.
  - cbn [_merge_dirs] in H. destruct fs_dst as [f|b]; [by injection H as <- <- <-|].
    destruct (merge_left_only _ _ _ _ _ _ _ _ _ _) as [[r1 d1] t1] eqn:H1.
    apply merge_left_only_same_at with (p := p) in H1; [|done].
    destruct r1; [|by injection H as <- <- <-].
    destruct (merge_diff_files _ _ _ _ _ _ _ _ _ _ _) as [[r2 d2] t2] eqn:H2.
    apply merge_diff_files_same_at with (p := p) in H2; [|done].
    destruct r2; [|injection H as <- <- <-; unfold same_at in *; congruence].
    destruct (merge_subdirs _ _ _ _ _ _ _) as [[r3 d3] t3] eqn:H3.
    apply merge_subdirs_same_at with (p := p) in H3; [| |done].
    + injection H as <- <- <-. unfold same_at in *. congruence.
    + eapply Forall_impl; [exact IH|]. intros e He s q dn t0 r0 n0 t0' p' Hm Hl.
      eapply He; eauto.
Qed.
End dirs_keep_rec.

(** C6: whatever the strategy, the proxy and the outcome (also when the
    merge raises), the document merge leaves every key that only the
    destination has in place with its value, and the directory merge leaves
    the node at every path that the source does not have as it was in the
    destination: nothing the destination alone has is removed or changed. *)
Theorem merges_keep_dst_only :
  (forall (src dst : items) strategy proxy t key,
      assoc key src = None ->
      exists dst', (_merge_dicts (VDict src) (VDict dst) strategy proxy t).1.2
                   = VDict dst'
                   /\ assoc key dst' = assoc key dst) /\
  (forall re_match now fs_src src dst exclude strategy proxy fs_dst t p,
      lookup_path p fs_src = None ->
      lookup_path p
        (_merge_dirs re_match now fs_src src dst exclude strategy proxy fs_dst t).1.2
      = lookup_path p fs_dst).
Proof.
  split.
  - intros src dst strategy proxy t key Hk.
    destruct (_merge_dicts (VDict src) (VDict dst) strategy proxy t)
      as [[r v] t'] eqn:H.
    by eapply merge_dicts_keeps_dst_only.
  - intros re_match now fs_src src dst exclude strategy proxy fs_dst t p Hp.
    destruct (_merge_dirs re_match now fs_src src dst exclude strategy proxy fs_dst t)
      as [[r n'] t'] eqn:H.
    by eapply merge_dirs_keeps_dst_only.
Qed.

Lemma merges_keep_dst_only_witness :
  (exists dst',
      (_merge_dicts (VDict [("a", VInt 1)]) (VDict [("a", VInt 2); ("mine", VStr "kept")])
         (Some always) real no_trace).1.2 = VDict dst'
      /\ assoc "mine" dst' = Some (VStr "kept")) /\
  lookup_path ["sub"; "mine"]
    (_merge_dirs String.prefix 7
       (Dir [("f", regular "new" 1); ("sub", Dir [("g", regular "s" 1)])])
       "/src" "/dst" [] (Some theirs) real
       (Dir [("f", regular "old" 0); ("sub", Dir [("mine", regular "kept" 0)])])
       no_trace).1.2
  = Some (regular "kept" 0).
Proof.
  destruct merges_keep_dst_only as [Hdoc Hdir]. split.
  - apply (Hdoc [("a", VInt 1)] [("a", VInt 2); ("mine", VStr "kept")]
             (Some always) real no_trace "mine"). reflexivity.
  - rewrite Hdir; reflexivity.
Defined.

(** *** Conflicts without a strategy *)

Lemma elem_of_insert_sorted x y l : x ∈ insert_sorted y l <-> x = y \/ x ∈ l.
Proof.
  induction l as [|z l IH]; simpl.
  - set_solver.
  - destruct (String.leb y z); [set_solver|]. rewrite elem_of_cons, IH. set_solver.
Qed.

Lemma elem_of_sorted x l : x ∈ sorted l <-> x ∈ l.
Proof.
  induction l as [|y l IH]; simpl; [done|].
  rewrite elem_of_insert_sorted, IH. set_solver.
Qed.

Lemma NoDup_sorted l : NoDup l -> NoDup (sorted l).
Proof.
  induction 1 as [|y l Hy Hl IH]; simpl; [constructor|].
  assert (Hy' : y ∉ sorted l) by by rewrite elem_of_sorted.
  revert IH Hy'. generalize (sorted l). clear. intros s.
  induction s as [|z s IH]; simpl; intros Hs Hy.
  - apply NoDup_singleton.
  - destruct (String.leb y z); [by constructor|].
    apply NoDup_cons in Hs as [Hz Hs]. apply NoDup_cons. split.
    + rewrite elem_of_insert_sorted. set_solver.
    + apply IH; [done|set_solver].
Qed.

Lemma mem_true x l : mem x l = true <-> x ∈ l.
Proof.
  unfold mem. rewrite existsb_exists. split.
  - intros (y & Hy & Heq). apply String.eqb_eq in Heq as ->. by apply list_elem_of_In.
  - intros Hx. exists x. split; [by apply list_elem_of_In | apply String.eqb_refl].
Qed.

Lemma assoc_None {A} x (d : list (string * A)) : assoc x d = None <-> x ∉ keys d.
Proof.
  induction d as [|[k v] d IH]; simpl; [set_solver|].
  destruct (String.eqb_spec x k) as [->|Hne]; [set_solver|].
  rewrite IH. set_solver.
Qed.

Lemma left_only_spec a b x :
  x ∈ left_only a b -> x ∈ keys a /\ assoc x b = None.
Proof.
  unfold left_only, listing. rewrite list_elem_of_filter, !elem_of_sorted.
  rewrite list_elem_of_filter. intros (Hb & Hign & Ha). split; [done|].
  apply assoc_None. intros Hxb. apply Is_true_true in Hb.
  apply negb_true_iff in Hb. apply not_true_iff_false in Hb. apply Hb.
  apply mem_true. rewrite elem_of_sorted, list_elem_of_filter. done.
Qed.

Lemma NoDup_left_only a b : NoDup (keys a) -> NoDup (left_only a b).
Proof.
  intros Ha. unfold left_only, listing.
  by apply NoDup_filter, NoDup_sorted, NoDup_filter.
Qed.

Section conflicts.
Variable re_match : string -> string -> bool.
Variable now : Z.

Lemma merge_left_only_ok a src dst exclude proxy :
  forall fns d t,
    NoDup fns ->
    (forall fn, fn ∈ fns -> fn ∈ keys a /\ assoc fn d = None) ->
    exists d' t',
      merge_left_only re_match now a src dst exclude proxy fns d t = (Ok (), d', t')
      /\ forall x, x ∉ fns -> assoc x d' = assoc x d.
Proof.
  induction fns as [|fn fns IH]; simpl; intros d t Hnd Hfns; [by eauto|].
  apply NoDup_cons in Hnd as [Hfn Hnd].
  destruct (Hfns fn) as [Ha Hd]; [set_solver|].
  assert (Hrest : forall d1,
    (forall x, x <> fn -> assoc x d1 = assoc x d) ->
    forall fn', fn' ∈ fns -> fn' ∈ keys a /\ assoc fn' d1 = None).
  { intros d1 Hd1 fn' Hfn'. destruct (Hfns fn') as [? ?]; [set_solver|].
    split; [done|]. rewrite Hd1; [done|]. intros ->. done. }
  destruct (excluded re_match exclude fn).
  { destruct (IH d (logged (LogExcluded fn) t) Hnd) as (d' & t' & -> & Hd').
    - by apply Hrest.
    - exists d', t'. split; [done|]. intros x Hx. apply Hd'. set_solver. }
  assert (Hstep : exists d1 t1,
    match assoc fn a with
    | Some (File _) =>
        copy proxy (path_join src fn) (path_join dst fn)
          (shutil_copy now (assoc fn a) fn) d t
    | _ =>
        copytree proxy (path_join src fn) (path_join dst fn)
          (shutil_copytree (assoc fn a) fn) d t
    end = (Ok (), d1, t1)
    /\ forall x, x <> fn -> assoc x d1 = assoc x d).
  { destruct (assoc fn a) as [[f|sub]|] eqn:Hfa.
    - unfold copy, proxy_do, shutil_copy. rewrite Hd.
      destruct (dry_run proxy); eexists _, _; (split; [reflexivity|]); [done|].
      intros x Hx. by apply assoc_set_ne.
    - unfold copytree, proxy_do, shutil_copytree. rewrite Hd.
      destruct (dry_run proxy); eexists _, _; (split; [reflexivity|]); [done|].
      intros x Hx. by apply assoc_set_ne.
    - apply assoc_None in Hfa. done. }
  destruct Hstep as (d1 & t1 & -> & Hd1).
  destruct (IH d1 t1 Hnd) as (d' & t' & -> & Hd'); [by apply Hrest|].
  exists d', t'. split; [done|]. intros x Hx.
  rewrite Hd'; [|set_solver]. apply Hd1. set_solver.
Qed.

Lemma merge_diff_files_conflict a src dst exclude proxy fn rest :
  excluded re_match exclude fn = false ->
  forall skipped d t,
    Forall (fun x => excluded re_match exclude x = true) skipped ->
    exists t',
      merge_diff_files re_match now a src dst exclude None proxy
        (skipped ++ fn :: rest) d t
      = (Raise (MergeConflict fn), d, t').
Proof.
  intros Hfn. induction skipped as [|x skipped IH]; simpl; intros d t Hall.
  - rewrite Hfn. eauto.
  - apply Forall_cons in Hall as [-> Hall]. by apply IH.
Qed.

Lemma merge_dirs_conflict a b src dst exclude proxy t skipped fn rest :
  NoDup (keys a) ->
  diff_files a b = (skipped ++ fn :: rest)%list ->
  Forall (fun x => excluded re_match exclude x = true) skipped ->
  excluded re_match exclude fn = false ->
  exists b' t',
    _merge_dirs re_match now (Dir a) src dst exclude None proxy (Dir b) t
    = (Raise (MergeConflict fn), Dir b', t')
    /\ forall x, is_Some (assoc x b) -> assoc x b' = assoc x b.
Proof.
  intros Hnd Hdiff Hskipped Hfn. cbn [_merge_dirs].
  destruct (merge_left_only_ok a src dst exclude proxy (left_only a b) b t)
    as (d1 & t1 & -> & Hd1).
  { by apply NoDup_left_only. }
  { intros x Hx. by apply left_only_spec. }
  rewrite Hdiff.
  destruct (merge_diff_files_conflict a src dst exclude proxy fn rest Hfn skipped d1 t1)
    as (t' & ->); [done|].
  exists d1, t'. split; [done|]. intros x [n Hx]. apply Hd1.
  intros Hlo. apply left_only_spec in Hlo as [_ Hlo]. congruence.
Qed.
End conflicts.

(** C5, as stated: when two entries differ, the error names the first of
    them only; for the other one the merge does not raise a conflict that
    names it.  And two files of the same size and modification time are not
    compared by content, so that no conflict is raised for them. *)
Lemma merge_dirs_conflict_names_first_only :
  (let a := [("a.txt", regular "1" 1); ("x.txt", regular "1" 1)] in
   let b := [("a.txt", regular "2" 2); ("x.txt", regular "2" 2)] in
   assoc "x.txt" a = Some (regular "1" 1) /\
   assoc "x.txt" b = Some (regular "2" 2) /\
   excluded String.prefix [] "x.txt" = false /\
   (_merge_dirs String.prefix 7 (Dir a) "/src" "/dst" [] None real (Dir b)
      no_trace).1.1 = Raise (MergeConflict "a.txt") /\
   Raise (A := unit) (MergeConflict "a.txt") <> Raise (MergeConflict "x.txt")) /\
  (_merge_dirs String.prefix 7 (Dir [("x.txt", regular "1" 5)]) "/src" "/dst" []
     None real (Dir [("x.txt", regular "2" 5)]) no_trace).1.1 = Ok ().
Proof.
  repeat split; try reflexivity. discriminate.
Qed.

(** C5, amended: without a strategy, the directory merge raises
    [MergeConflict] naming the first entry, in the order of the directory
    comparison, among the files that the comparison reports as differing and
    that are not excluded; every entry that the destination had is still
    there, unchanged. *)
Theorem merge_dirs_raises_first_conflict re_match now
    (a b : entries) (src dst : string) (exclude : list string)
    (proxy : _DataModifyProxy) (t : trace) (skipped : list string)
    (fn : string) (rest : list string) :
  NoDup (keys a) ->
  diff_files a b = (skipped ++ fn :: rest)%list ->
  Forall (fun x => excluded re_match exclude x = true) skipped ->
  excluded re_match exclude fn = false ->
  exists b' t',
    _merge_dirs re_match now (Dir a) src dst exclude None proxy (Dir b) t
    = (Raise (MergeConflict fn), Dir b', t')
    /\ forall x, is_Some (assoc x b) -> assoc x b' = assoc x b.
Proof. apply merge_dirs_conflict. Qed.

Lemma merge_dirs_raises_first_conflict_witness :
  let a := [("x.txt", regular "source" 1); ("a.txt", regular "1" 1);
            ("new", regular "n" 1)] in
  let b := [("a.txt", regular "2" 2); ("x.txt", regular "target" 2)] in
  exists b' t',
    _merge_dirs String.prefix 7 (Dir a) "/src" "/dst" ["a"] None real (Dir b)
      no_trace
    = (Raise (MergeConflict "x.txt"), Dir b', t')
    /\ forall x, is_Some (assoc x b) -> assoc x b' = assoc x b.
Proof.
  intros a b.
  apply (merge_dirs_raises_first_conflict String.prefix 7 a b "/src" "/dst" ["a"]
           real no_trace ["a.txt"] "x.txt" []).
  - apply (bool_decide_unpack _). vm_compute. exact I.
  - vm_compute. reflexivity.
  - repeat constructor.
  - reflexivity.
Defined.

(** C2, at an input where the code departs from the claim: a file whose
    name matches an exclusion pattern and that lies in a subdirectory which
    only the source has is copied, with the whole subdirectory. *)
Theorem merge_dirs_copies_excluded_in_new_subdir :
  excluded String.prefix ["secret"] "secret.txt" = true /\
  _merge_dirs String.prefix 7
    (Dir [("sub", Dir [("secret.txt", regular "s" 1)])]) "/src" "/dst"
    ["secret"] None real (Dir []) no_trace
  = (Ok (), Dir [("sub", Dir [("secret.txt", regular "s" 1)])],
     Trace [LogCopytree "/src/sub" "/dst/sub"] 0).
Proof. split; reflexivity. Qed.

(** ** The trace of the document merge *)

Lemma assoc_set_same {A} k (v : A) d : assoc k d = Some v -> assoc_set k v d = d.
Proof.
  induction d as [|[k' v'] d IH]; simpl; [done|].
  destruct (String.eqb_spec k k') as [->|Hne].
  - by intros [= ->].
  - intros H. by rewrite IH.
Qed.

Lemma set_value_blind proxy dst key val t t0 r v t' :
  set_value proxy dst key val t = (r, v, t') ->
  exists t0', set_value proxy dst key val t0 = (r, v, t0')
              /\ same_effect proxy t t' t0 t0' dst v.
Proof.
  unfold set_value, same_effect. destruct (dry_run proxy) eqn:Hdry.
  - intros [= <- <- <-]. eexists. split; [reflexivity|]. simpl. split; [lia|done].
  - destruct (py_setitem dst key val); intros [= <- <- <-];
      (eexists; split; [reflexivity|]); simpl; split; (lia || done).
Qed.

Lemma same_effect_trans proxy t t1 t' t0 t01 t0' v0 v1 v :
  same_effect proxy t t1 t0 t01 v0 v1 ->
  same_effect proxy t1 t' t01 t0' v1 v ->
  same_effect proxy t t' t0 t0' v0 v.
Proof.
  unfold same_effect. intros [H1 H1'] [H2 H2']. split; [lia|].
  intros Hdry. destruct (H1' Hdry), (H2' Hdry). split; congruence.
Qed.

Lemma same_effect_refl proxy t t0 v : same_effect proxy t t t0 t0 v v.
Proof. unfold same_effect. split; [lia|done]. Qed.

Lemma same_effect_logged proxy r t t0 v :
  same_effect proxy t (logged r t) t0 (logged r t0) v v.
Proof. unfold same_effect. simpl. split; [lia|done]. Qed.

Lemma merge_items_blind mn strategy proxy :
  forall src,
    Forall (fun e => trace_blind proxy (mn e.2)) src ->
    forall sk, trace_blind proxy (fun dst t => merge_items mn strategy proxy src dst sk t).
Proof.
  induction src as [|[k val] rest IH]; intros Hall sk dst t t0 r v t' H; simpl in *.
  - injection H as <- <- <-. eexists. split; [done|apply same_effect_refl].
  - apply Forall_cons in Hall as [Hval Hall]. simpl in Hval.
    specialize (IH Hall).
    assert (Hassign : forall d1 t1 t01,
      match set_value proxy d1 k val t1 with
      | (Ok _, dst, t) => merge_items mn strategy proxy rest dst sk t
      | (Raise e, dst, t) => (Raise e, dst, t)
      end = (r, v, t') ->
      exists t0',
        match set_value proxy d1 k val t01 with
        | (Ok _, dst, t) => merge_items mn strategy proxy rest dst sk t
        | (Raise e, dst, t) => (Raise e, dst, t)
        end = (r, v, t0') /\ same_effect proxy t1 t' t01 t0' d1 v).
    { intros d1 t1 t01 H1.
      destruct (set_value proxy d1 k val t1) as [[r1 v1] t1'] eqn:Hs.
      destruct (set_value_blind _ _ _ _ _ t01 _ _ _ Hs) as (t01' & -> & He).
      destruct r1.
      - destruct (IH _ _ _ t01' _ _ _ H1) as (t0' & -> & He').
        eexists. split; [done|]. by eapply same_effect_trans.
      - injection H1 as <- <- <-. eauto. }
    destruct (py_contains k dst) as [[]|e] eqn:Hin;
      [| by apply Hassign | by injection H as <- <- <-; eauto using same_effect_refl].
    destruct (py_getitem dst k) as [dv|e] eqn:Hget;
      [| by injection H as <- <- <-; eauto using same_effect_refl].
    destruct (py_eq dv val); [by eapply IH|].
    destruct strategy as [f|]; [|by eapply IH].
    destruct (call1 f k) as [[]|e];
      [| by eapply IH | by injection H as <- <- <-; eauto using same_effect_refl].
    destruct (is_Mapping val); [|by apply Hassign].
    destruct (mn val dv t) as [[r1 nested] t1] eqn:Hmn.
    destruct (Hval _ _ t0 _ _ _ Hmn) as (t01 & -> & Hen).
    assert (Hwb : same_effect proxy t t1 t0 t01 dst (write_back dst k nested)).
    { destruct Hen as [Hn Hdry]. split; [done|]. intros Hd.
      destruct (Hdry Hd) as [? ->]. split; [done|].
      destruct dst as [| | | |d]; try done. simpl in *.
      destruct (assoc k d) eqn:Hk; [|done]. injection Hget as ->.
      by rewrite assoc_set_same. }
    destruct r1 as [sk1|e].
    + destruct (IH _ _ _ t01 _ _ _ H) as (t0' & -> & He').
      eexists. split; [done|]. by eapply same_effect_trans.
    + destruct e; try (injection H as <- <- <-; eauto).
      destruct (Hassign _ _ t01 H) as (t0' & -> & He').
      eexists. split; [done|]. by eapply same_effect_trans.
Qed.

Lemma merge_dicts_blind strategy proxy :
  forall src, trace_blind proxy (fun dst t => _merge_dicts src dst strategy proxy t).
Proof.
  induction src as [| | | |d IH] using value_rect'; intros dst t t0 r v t' H;
    cbn [_merge_dicts] in *.
  1-4: destruct (py_eq _ dst); injection H as <- <- <-;
       eauto using same_effect_refl.
  destruct (py_eq (VDict d) dst).
  - injection H as <- <- <-. eauto using same_effect_refl.
  - eapply (merge_items_blind _ strategy proxy d) in H; [exact H|].
    eapply Forall_impl; [exact IH|]. intros e He. exact He.
Qed.

(** ** The transactional document merge *)

Lemma backup_path_ne (path : string) : path +:+ "~" <> path.
Proof.
  induction path as [|c path IH]; simpl; [discriminate|].
  intros [= H]. by apply IH.
Qed.

(** C1: for a document backed by a file that exists, when the merge could
    start (no stale backup is in the way) and the inner document merge
    raises [e], the transactional merge raises [e]; after it the backing file
    has the bytes it had before the merge and there is no backup file. *)
Theorem merge_json_dicts_rolls_back (dump : value -> string) (src : value)
    (dst : JSONDict) (strategy : option callable) (proxy : _DataModifyProxy)
    (fs : files) (t : trace) (fn : string) (e : exn) :
  _filename dst = Some fn ->
  is_Some (fs !! fn) ->
  fs !! (fn +:+ "~") = None ->
  (_merge_dicts src (VDict (data dst)) strategy proxy t).1.1 = Raise e ->
  exists dst' fs' t',
    _merge_json_dicts dump src dst strategy proxy fs t = (Raise e, dst', fs', t')
    /\ fs' !! fn = fs !! fn
    /\ fs' !! (fn +:+ "~") = None.
Proof.
  intros Hfn [c Hc] Hbk Hraise.
  unfold _merge_json_dicts, create_backup. rewrite Hfn.
  unfold isfile. rewrite Hc, Hbk.
  rewrite bool_decide_eq_true_2 by eauto.
  rewrite bool_decide_eq_false_2 by (intros [? ?]; done).
  cbn [negb].
  set (t1 := logged (LogCreateBackup fn) t).
  destruct (_merge_dicts src (VDict (data dst)) strategy proxy t)
    as [[r v] t'] eqn:Hm. simpl in Hraise. subst r.
  destruct (merge_dicts_blind strategy proxy src _ _ t1 _ _ _ Hm)
    as (t1' & Hm1 & Hgrow & Hdry).
  unfold _merge_dicts_JSONDict, copy, proxy_do, shutil_copy_file, os_remove.
  destruct (dry_run proxy) eqn:Hd.
  - (* dry run: no backup is made, nothing is assigned, nothing is restored *)
    rewrite Hm1, Hfn.
    destruct (Hdry eq_refl) as [Hsame _].
    assert (Hlt : (assigned t1 <? assigned t1')%nat = false).
    { apply Nat.ltb_ge. lia. }
    rewrite Hlt. eauto 10.
  - rewrite Hc. rewrite Hm1, Hfn.
    set (fs1 := <[fn +:+ "~" := c]> fs).
    assert (Hne := backup_path_ne fn).
    destruct (assigned t1 <? assigned t1')%nat.
    + rewrite lookup_insert_ne by done. unfold fs1 at 1.
      rewrite lookup_insert_eq.
      rewrite lookup_insert_ne by done. rewrite lookup_insert_ne by done.
      unfold fs1 at 1. rewrite lookup_insert_eq.
      eexists _, _, _. split; [reflexivity|]. split.
      * rewrite lookup_delete_ne by done. by rewrite lookup_insert_eq.
      * by rewrite lookup_delete_eq.
    + unfold fs1 at 1. rewrite lookup_insert_eq.
      rewrite lookup_insert_ne by done. unfold fs1 at 1. rewrite lookup_insert_eq.
      eexists _, _, _. split; [reflexivity|]. split.
      * rewrite lookup_delete_ne by done. by rewrite lookup_insert_eq.
      * by rewrite lookup_delete_eq.
Qed.

Lemma merge_json_dicts_rolls_back_witness :
  let dump := fun _ : value => "{merged}" in
  let dst := {| _filename := Some "doc.json";
                data := [("a", VInt 0); ("b", VInt 0)] |} in
  let fs : files := {["doc.json" := "{original}"]} in
  exists dst' fs' t',
    _merge_json_dicts dump (VDict [("a", VInt 1); ("b", VInt 2)]) dst
      (Some fails_on_b) real fs no_trace
    = (Raise (UserError "boom"), dst', fs', t')
    /\ fs' !! "doc.json" = fs !! "doc.json"
    /\ fs' !! "doc.json~" = None.
Proof.
  intros dump dst fs.
  apply (merge_json_dicts_rolls_back dump (VDict [("a", VInt 1); ("b", VInt 2)])
           dst (Some fails_on_b) real fs no_trace "doc.json" (UserError "boom")).
  - reflexivity.
  - exists "{original}". reflexivity.
  - reflexivity.
  - reflexivity.
Defined.

(** ** Jobs and projects *)

(** C7: when two distinct repositories are merged with [check_schema] set,
    the destination's schema is not empty and one of the two schemas has
    something that the other has not, the merge raises
    [MergeSchemaConflict] with the two schemas; the destination and the
    world are what they were: no document was merged, no job processed,
    nothing logged. *)
Theorem merge_projects_schema_conflict re_match now dump
    (detect_schema : Project -> schema) (source destination : Project)
    (exclude : exclude_arg) (strategy doc_strategy : option callable)
    (selection : option (list string)) (dry_run : bool) (w : world) :
  same_project source destination = false ->
  detect_schema destination <> ∅ ->
  detect_schema source ∖ detect_schema destination <> ∅
  \/ detect_schema destination ∖ detect_schema source <> ∅ ->
  merge_projects re_match now dump detect_schema source destination exclude
    strategy doc_strategy selection true dry_run w
  = (Raise (MergeSchemaConflict (detect_schema source) (detect_schema destination)),
     destination, w).
Proof.
  intros Hdiff Hdst Hdelta. unfold merge_projects. rewrite Hdiff.
  assert (Hne : detect_schema source <> detect_schema destination).
  { intros Heq. rewrite Heq in Hdelta. destruct Hdelta as [H|H]; apply H; set_solver. }
  rewrite (bool_decide_eq_true_2 _ Hdst), (bool_decide_eq_true_2 _ Hne).
  destruct Hdelta as [H|H].
  - rewrite (bool_decide_eq_true_2 _ H). reflexivity.
  - rewrite (bool_decide_eq_true_2 _ H). rewrite orb_true_r. reflexivity.
Qed.

Lemma merge_projects_schema_conflict_witness :
  let source :=
    {| root_directory := "/src"; document := transient [];
       jobs := [job "1" "/src/workspace/1" (Dir []) (transient [("a", VInt 1)])] |} in
  let destination :=
    {| root_directory := "/dst"; document := transient [];
       jobs := [job "2" "/dst/workspace/2" (Dir []) (transient [("b", VInt 1)])] |} in
  merge_projects String.prefix 7 (fun _ => "") document_keys source destination
    ExcludeNone (Some theirs) (Some always) None true false empty_world
  = (Raise (MergeSchemaConflict {["a"]} {["b"]}), destination, empty_world).
Proof.
  intros source destination.
  assert (Hs : document_keys source = {["a"]}) by (vm_compute; reflexivity).
  assert (Hd : document_keys destination = {["b"]}) by (vm_compute; reflexivity).
  rewrite <- Hs, <- Hd.
  apply merge_projects_schema_conflict.
  - reflexivity.
  - rewrite Hd. set_solver.
  - left. rewrite Hs, Hd. set_solver.
Defined.

(** C3, at an input where the code departs from the claim: a dry run of the
    project merge clones a job that only the source has into the
    destination.  The clone is not made through the proxy. *)
Theorem merge_projects_dry_run_clones :
  let source :=
    {| root_directory := "/src"; document := transient [];
       jobs := [job "1" "/src/workspace/1" (Dir [("data.txt", regular "x" 1)])
                  (transient [("a", VInt 1)])] |} in
  let destination :=
    {| root_directory := "/dst"; document := transient []; jobs := [] |} in
  let after :=
    (merge_projects String.prefix 7 (fun _ => "") (fun _ => ∅) source destination
       ExcludeNone None None None true true empty_world) in
  jobs after.1.2
  = [job "1" "/dst/workspace/1" (Dir [("data.txt", regular "x" 1)])
       (transient [("a", VInt 1)])]
  /\ log (tr after.2)
     = [LogMergingProject "/src" "/dst"; LogRoots "/src" "/dst"; LogDryRun;
        LogMergeStrategy; LogClonedJob "1"; LogSummary 1 0].
Proof. split; vm_compute; reflexivity. Qed.

(** *** The exclusion list *)

Section exclude_list.
Variable re_match : string -> string -> bool.
Variable now : Z.
Variable dump : value -> string.

Lemma merge_jobs_extends src_job dst_job ref l strategy doc_strategy dry w :
  heap w !! ref = Some l ->
  same_job src_job dst_job = true ->
  heap (merge_jobs re_match now dump src_job dst_job (ExcludeList ref) strategy
          doc_strategy dry w).2 !! ref
  = Some (l ++ reserved src_job)%list.
Proof.
  intros Hl Hsame. unfold merge_jobs. rewrite Hsame. cbn [negb].
  assert (Halter :
    alter (fun l => (l ++ [FN_MANIFEST src_job; FN_DOCUMENT src_job])%list) ref
      (heap w) !! ref = Some (l ++ reserved src_job)%list).
  { rewrite list_lookup_alter_eq. by rewrite Hl. }
  destruct (_merge_dirs _ _ _ _ _ _ _ _ _ _) as [[[]] ?]; simpl; [|done].
  destruct (_merge_json_dicts _ _ _ _ _ _ _) as [[[? ?] ?] ?]. done.
Qed.

Lemma merge_jobs_ok_extends src_job dst_job ref l strategy doc_strategy dry w
    sk j' w' :
  heap w !! ref = Some l ->
  merge_jobs re_match now dump src_job dst_job (ExcludeList ref) strategy
    doc_strategy dry w = (Ok sk, j', w') ->
  heap w' !! ref = Some (l ++ reserved src_job)%list.
Proof.
  intros Hl H.
  destruct (same_job src_job dst_job) eqn:Hsame.
  - pose proof (merge_jobs_extends src_job dst_job ref l strategy doc_strategy
                  dry w Hl Hsame) as He. by rewrite H in He.
  - unfold merge_jobs in H. rewrite Hsame in H. discriminate.
Qed.

Lemma merge_each_job_extends ref strategy doc_strategy selection proxy :
  forall src_jobs destination sk c m w l sk' c' m' d' w',
    heap w !! ref = Some l ->
    merge_each_job re_match now dump (ExcludeList ref) strategy doc_strategy
      selection proxy src_jobs destination sk c m w
    = (Ok (sk', c', m'), d', w') ->
    exists merged_jobs,
      sublist merged_jobs src_jobs
      /\ m' = (m + length merged_jobs)%nat
      /\ heap w' !! ref = Some (l ++ flat_map reserved merged_jobs)%list.
Proof.
  induction src_jobs as [|src_job rest IH]; simpl;
    intros destination sk c m w l sk' c' m' d' w' Hl H.
  - injection H as <- <- <- <- <-. exists []. rewrite app_nil_r.
    split; [constructor|]. split; [simpl; lia|done].
  - assert (Hskip : forall destination sk c w,
      heap w !! ref = Some l ->
      merge_each_job re_match now dump (ExcludeList ref) strategy doc_strategy
        selection proxy rest destination sk c m w = (Ok (sk', c', m'), d', w') ->
      exists merged_jobs,
        sublist merged_jobs (src_job :: rest)
        /\ m' = (m + length merged_jobs)%nat
        /\ heap w' !! ref = Some (l ++ flat_map reserved merged_jobs)%list).
    { intros d0 sk0 c0 w0 Hl0 H0.
      destruct (IH _ _ _ _ _ _ _ _ _ _ _ Hl0 H0) as (mj & Hsub & Hm & Hh).
      exists mj. split; [by apply sublist_cons|done]. }
    destruct (match selection with Some sel => _ | None => false end).
    { eapply Hskip; [|exact H]. done. }
    unfold clone in H.
    destruct (has_job destination (get_id src_job));
      [|eapply Hskip; [|exact H]; done].
    destruct (open_job destination (get_id src_job)) as [dst_job|]; [|done].
    destruct (merge_jobs _ _ _ _ _ _ _ _ _ _) as [[[sk1|e] j1] w1] eqn:Hmj; [|done].
    apply merge_jobs_ok_extends with (l := l) in Hmj; [|done].
    eapply IH in H; [|exact Hmj]. destruct H as (mj & Hsub & Hm & Hh).
    exists (src_job :: mj). split; [by apply sublist_skip|]. split; [simpl; lia|].
    rewrite Hh. simpl. f_equal. by rewrite <- app_assoc.
Qed.
End exclude_list.

(** C10: a list passed as [exclude] to [merge_jobs] is the object that gets
    the job's two reserved file names appended, whatever happens afterwards
    in the call; and after a project merge that was given a list, the list
    holds, after what it held, the reserved names of every job that was
    merged, once per merged job, in the order of the merges. *)
Theorem exclude_list_extended_in_place re_match now dump
    (detect_schema : Project -> schema) :
  (forall src_job dst_job ref l strategy doc_strategy dry w,
      heap w !! ref = Some l ->
      same_job src_job dst_job = true ->
      heap (merge_jobs re_match now dump src_job dst_job (ExcludeList ref)
              strategy doc_strategy dry w).2 !! ref
      = Some (l ++ reserved src_job)%list) /\
  (forall source destination ref l strategy doc_strategy selection check_schema
          dry_run w sk d' w',
      heap w !! ref = Some l ->
      merge_projects re_match now dump detect_schema source destination
        (ExcludeList ref) strategy doc_strategy selection check_schema dry_run w
      = (Ok sk, d', w') ->
      exists merged_jobs cloned,
        sublist merged_jobs (jobs source)
        /\ heap w' !! ref = Some (l ++ flat_map reserved merged_jobs)%list
        /\ LogSummary cloned (length merged_jobs) ∈ log (tr w')).
Proof.
  split; [intros; by apply merge_jobs_extends|].
  intros source destination ref l strategy doc_strategy selection check_schema
    dry_run w sk d' w' Hl H.
  unfold merge_projects in H.
  destruct (same_project source destination); [done|].
  match type of H with (if ?c then _ else _) = _ => destruct c; [done|] end.
  destruct (_merge_json_dicts _ _ _ _ _ _ _) as [[[[sk0|e] d0] bk0] t0]; [|done].
  destruct (merge_each_job _ _ _ _ _ _ _ _ _ _ _ _ _ _) as [[[[[sk1 c1] m1]|e] d1] w1]
    eqn:Hloop; [|done].
  eapply merge_each_job_extends in Hloop; [|exact Hl].
  destruct Hloop as (mj & Hsub & -> & Hh). simpl in H.
  exists mj, c1. split; [done|].
  destruct (bool_decide (sk1 <> ∅)); injection H as <- <- <-; simpl.
  - split; [done|]. set_solver.
  - split; [done|]. set_solver.
Qed.

(** Two jobs that both projects have, and an exclusion list shared by the
    two job merges: the reserved names are in the list twice. *)
Lemma exclude_list_extended_in_place_witness :
  let src1 := job "1" "/src/workspace/1" (Dir []) (transient []) in
  let src2 := job "2" "/src/workspace/2" (Dir []) (transient []) in
  let dst1 := job "1" "/dst/workspace/1" (Dir []) (transient []) in
  let dst2 := job "2" "/dst/workspace/2" (Dir []) (transient []) in
  let source :=
    {| root_directory := "/src"; document := transient []; jobs := [src1; src2] |} in
  let destination :=
    {| root_directory := "/dst"; document := transient []; jobs := [dst1; dst2] |} in
  let w := World ∅ [["mine"]] no_trace in
  heap (merge_jobs String.prefix 7 (fun _ => "") src1 dst1 (ExcludeList 0) None
          None (DryRunFlag false) w).2 !! 0%nat
  = Some ["mine"; "signac_statepoint.json"; "signac_job_document.json"] /\
  exists merged_jobs cloned,
    sublist merged_jobs (jobs source)
    /\ heap (merge_projects String.prefix 7 (fun _ => "") (fun _ => ∅) source
               destination (ExcludeList 0) None None None true false w).2 !! 0%nat
       = Some (["mine"] ++ flat_map reserved merged_jobs)%list
    /\ LogSummary cloned (length merged_jobs)
       ∈ log (tr (merge_projects String.prefix 7 (fun _ => "") (fun _ => ∅) source
                    destination (ExcludeList 0) None None None true false w).2).
Proof.
  intros src1 src2 dst1 dst2 source destination w.
  destruct (exclude_list_extended_in_place String.prefix 7 (fun _ => "")
              (fun _ => ∅)) as [Hjob Hproject].
  split.
  - apply (Hjob src1 dst1 0%nat ["mine"] None None (DryRunFlag false) w);
      reflexivity.
  - destruct (merge_projects String.prefix 7 (fun _ => "") (fun _ => ∅) source
                destination (ExcludeList 0) None None None true false w)
      as [[r d'] w'] eqn:H.
    assert (Hr : r = Ok ∅).
    { assert (Hr' : (merge_projects String.prefix 7 (fun _ => "") (fun _ => ∅)
                       source destination (ExcludeList 0) None None None true
                       false w).1.1 = Ok ∅) by (vm_compute; reflexivity).
      by rewrite H in Hr'. }
    subst r.
    apply (Hproject source destination 0%nat ["mine"] None None None true false w
             ∅ d' w'); [reflexivity | exact H].
Defined.

Example exclude_list_accumulates :
  let src1 := job "1" "/src/workspace/1" (Dir []) (transient []) in
  let src2 := job "2" "/src/workspace/2" (Dir []) (transient []) in
  let dst1 := job "1" "/dst/workspace/1" (Dir []) (transient []) in
  let dst2 := job "2" "/dst/workspace/2" (Dir []) (transient []) in
  let source :=
    {| root_directory := "/src"; document := transient []; jobs := [src1; src2] |} in
  let destination :=
    {| root_directory := "/dst"; document := transient []; jobs := [dst1; dst2] |} in
  heap (merge_projects String.prefix 7 (fun _ => "") (fun _ => ∅) source
          destination (ExcludeList 0) None None None true false
          (World ∅ [["mine"]] no_trace)).2
  = [["mine"; "signac_statepoint.json"; "signac_job_document.json";
      "signac_statepoint.json"; "signac_job_document.json"]].
Proof. vm_compute. reflexivity. Qed.

(** ** Dry runs *)

Section dry_runs.
Variable re_match : string -> string -> bool.
Variable now : Z.
Variable dump : value -> string.

Lemma proxy_do_dry_run {S : Type} proxy r (act : S -> result S) s t :
  dry_run proxy = true -> proxy_do proxy r act s t = (Ok (), s, logged r t).
Proof. intros Hdry. unfold proxy_do. by rewrite Hdry. Qed.

Lemma merge_left_only_dry_run a src dst exclude proxy :
  dry_run proxy = true ->
  forall fns d t,
    (merge_left_only re_match now a src dst exclude proxy fns d t).1.2 = d.
Proof.
  intros Hdry. induction fns as [|fn fns IH]; simpl; intros d t; [done|].
  destruct (excluded re_match exclude fn); [apply IH|].
  unfold copy, copytree.
  destruct (assoc fn a) as [[f|sub]|]; rewrite proxy_do_dry_run by done; apply IH.
Qed.

Lemma merge_diff_files_dry_run a src dst exclude strategy proxy :
  dry_run proxy = true ->
  forall fns d t,
    (merge_diff_files re_match now a src dst exclude strategy proxy fns d t).1.2 = d.
Proof.
  intros Hdry. induction fns as [|fn fns IH]; simpl; intros d t; [done|].
  destruct (excluded re_match exclude fn); [apply IH|].
  destruct strategy as [f|]; [|done].
  destruct (call2 f _ _) as [[]|e]; [|apply IH|done].
  unfold copy. rewrite proxy_do_dry_run by done. apply IH.
Qed.

Lemma merge_in_subdir_dry_run rec src dst subdir :
  forall l,
    Forall (fun e => forall s q dn t, (rec e.2 s q dn t).1.2 = dn) l ->
    forall d t, (merge_in_subdir rec src dst l subdir d t).1.2 = d.
Proof.
  induction l as [|[name sub] l IH]; simpl; intros Hall d t; [done|].
  apply Forall_cons in Hall as [Hsub Hall]. simpl in Hsub.
  destruct (String.eqb subdir name); [|by apply IH].
  destruct (assoc subdir d) as [dsub|] eqn:Hd; [|done].
  specialize (Hsub (path_join src subdir) (path_join dst subdir) dsub t).
  destruct (rec sub _ _ dsub t) as [[r dsub'] t']. simpl in *. subst dsub'.
  by apply assoc_set_same.
Qed.

Lemma merge_subdirs_dry_run rec a src dst :
  Forall (fun e => forall s q dn t, (rec e.2 s q dn t).1.2 = dn) a ->
  forall names d t, (merge_subdirs rec a src dst names d t).1.2 = d.
Proof.
  intros Hall. induction names as [|subdir names IH]; simpl; intros d t; [done|].
  pose proof (merge_in_subdir_dry_run rec src dst subdir a Hall d t) as H1.
  destruct (merge_in_subdir rec src dst a subdir d t) as [[[] d1] t1];
    simpl in H1; subst d1; [apply IH|done].
Qed.

(** Under a dry run the directory merge leaves the destination tree as it
    is. *)
Lemma merge_dirs_dry_run proxy :
  dry_run proxy = true ->
  forall fs_src src dst exclude strategy fs_dst t,
    (_merge_dirs re_match now fs_src src dst exclude strategy proxy fs_dst t).1.2
    = fs_dst.
Proof.
  intros Hdry. induction fs_src as [f|a IH] using node_rect';
    intros src dst exclude strategy fs_dst t; [done|].
  cbn [_merge_dirs]. destruct fs_dst as [f|b]; [done|].
  pose proof (merge_left_only_dry_run a src dst exclude proxy Hdry
                (left_only a b) b t) as H1.
  destruct (merge_left_only _ _ _ _ _ _ _ _ _ _) as [[[] d1] t1];
    simpl in H1; subst d1; [|done].
  pose proof (merge_diff_files_dry_run a src dst exclude strategy proxy Hdry
                (diff_files a b) b t1) as H2.
  destruct (merge_diff_files _ _ _ _ _ _ _ _ _ _ _) as [[[] d2] t2];
    simpl in H2; subst d2; [|done].
  match goal with |- context [merge_subdirs ?rec a src dst ?ns b t2] =>
    pose proof (merge_subdirs_dry_run rec a src dst) as H3;
    specialize (H3 ltac:(eapply Forall_impl; [exact IH|]; intros e He s q dn t0;
                         apply He) ns b t2);
    destruct (merge_subdirs rec a src dst ns b t2) as [[r3 d3] t3]
  end.
  simpl in *. by subst d3.
Qed.

(** Under a dry run the transactional document merge leaves the document
    and the files as they are. *)
Lemma merge_json_dicts_dry_run proxy src dst strategy fs t :
  dry_run proxy = true ->
  exists r t',
    _merge_json_dicts dump src dst strategy proxy fs t = (r, dst, fs, t').
Proof.
  intros Hdry.
  assert (Hinner : forall t,
    exists r t', _merge_dicts_JSONDict dump src dst strategy proxy fs t
                 = (r, dst, fs, t')).
  { intros t1. unfold _merge_dicts_JSONDict.
    destruct (_merge_dicts src (VDict (data dst)) strategy proxy t1)
      as [[r v] t1'] eqn:Hm.
    destruct (merge_dicts_blind strategy proxy src _ _ t1 _ _ _ Hm)
      as (? & _ & _ & Hd). destruct (Hd Hdry) as [Ha ->].
    assert (Hlt : (assigned t1 <? assigned t1')%nat = false)
      by (apply Nat.ltb_ge; lia).
    rewrite Hlt. destruct dst as [fn d]; simpl. destruct fn; eauto. }
  unfold _merge_json_dicts.
  destruct (_filename dst) as [fn|]; [|apply Hinner].
  destruct (negb (isfile fn fs)); [apply Hinner|].
  unfold create_backup. destruct (isfile (fn +:+ "~") fs); [eauto|].
  rewrite Hdry.
  destruct (Hinner (logged (LogCreateBackup fn) t)) as (r & t' & ->).
  destruct r; [eauto|]. unfold copy. rewrite proxy_do_dry_run by done. eauto.
Qed.

(** Under a dry run the job merge leaves the destination job and the files
    as they are. *)
Lemma merge_jobs_dry_run src_job dst_job exclude strategy doc_strategy proxy w :
  dry_run proxy = true ->
  exists r w',
    merge_jobs re_match now dump src_job dst_job exclude strategy doc_strategy
      (DryRunProxy proxy) w = (r, dst_job, w')
    /\ backing w' = backing w.
Proof.
  intros Hdry. unfold merge_jobs.
  destruct (match exclude with ExcludeNone => _ | _ => _ end) as [ref hp].
  destruct (negb (same_job src_job dst_job)); [eauto|].
  match goal with |- context [_merge_dirs _ _ ?a ?b ?c ?d ?e ?f ?g ?h] =>
    pose proof (merge_dirs_dry_run proxy Hdry a b c d e g h) as H1;
    destruct (_merge_dirs re_match now a b c d e f g h) as [[r1 fs1] t1]
  end.
  simpl in H1. subst fs1.
  assert (Hj : with_tree dst_job (tree dst_job) = dst_job) by by destruct dst_job.
  rewrite Hj. destruct r1; [|eauto].
  destruct (merge_json_dicts_dry_run proxy (VDict (data (doc src_job)))
              (doc dst_job) doc_strategy (backing w) t1 Hdry) as (r & t' & ->).
  assert (Hd : with_doc dst_job (doc dst_job) = dst_job) by by destruct dst_job.
  rewrite Hd. eauto.
Qed.
End dry_runs.

Lemma replace_job_found id j l :
  find (fun j' => String.eqb (get_id j') id) l = Some j -> replace_job j l = l.
Proof.
  induction l as [|j' l IH]; simpl; [done|].
  destruct (String.eqb_spec (get_id j') id) as [Hid|Hid].
  - intros [= ->]. by rewrite String.eqb_refl.
  - intros Hf. pose proof (find_some _ _ Hf) as [_ Hj].
    apply String.eqb_eq in Hj.
    destruct (String.eqb_spec (get_id j') (get_id j)); [congruence|].
    by rewrite IH.
Qed.

Section dry_run_projects.
Variable re_match : string -> string -> bool.
Variable now : Z.
Variable dump : value -> string.
Variable detect_schema : Project -> schema.

Lemma merge_each_job_dry_run exclude strategy doc_strategy selection proxy
    destination :
  dry_run proxy = true ->
  forall src_jobs sk c m w,
    Forall (fun j => has_job destination (get_id j) = true) src_jobs ->
    exists r w',
      merge_each_job re_match now dump exclude strategy doc_strategy selection
        proxy src_jobs destination sk c m w = (r, destination, w')
      /\ backing w' = backing w.
Proof.
  intros Hdry. induction src_jobs as [|src_job rest IH]; simpl;
    intros sk c m w Hall; [by eauto|].
  apply Forall_cons in Hall as [Hhas Hall].
  destruct (match selection with Some sel => _ | None => false end).
  { destruct (IH sk c m (with_trace w (logged (LogNotInSelection (get_id src_job))
                                         (tr w))) Hall) as (r & w' & -> & Hb).
    eauto. }
  unfold clone. rewrite Hhas. unfold open_job.
  destruct (find _ (jobs destination)) as [dst_job|] eqn:Hfind; [|by eauto].
  destruct (merge_jobs_dry_run re_match now dump src_job dst_job exclude strategy
              doc_strategy proxy (World (backing w) (heap w) (tr w)) Hdry)
    as (r1 & w1 & -> & Hb1). simpl in Hb1.
  assert (Hsame : with_job destination dst_job = destination).
  { unfold with_job. rewrite (replace_job_found _ _ _ Hfind). by destruct destination. }
  rewrite Hsame. destruct r1 as [sk1|e]; [|by eauto].
  destruct (IH (sk ∪ sk1) c (S m)
              (with_trace w1 (logged (LogMergedJob (get_id src_job)) (tr w1))) Hall)
    as (r & w' & -> & Hb).
  exists r, w'. split; [done|]. simpl in Hb. congruence.
Qed.

(** Under a dry run, the project merge leaves the destination and the files
    as they are when the destination has every job of the source.  This is
    what holds of C3: everything but the clone goes through the proxy. *)
Lemma merge_projects_dry_run_without_clone source destination exclude strategy
    doc_strategy selection check_schema w :
  Forall (fun j => has_job destination (get_id j) = true) (jobs source) ->
  exists r w',
    merge_projects re_match now dump detect_schema source destination exclude
      strategy doc_strategy selection check_schema true w = (r, destination, w')
    /\ backing w' = backing w.
Proof.
  intros Hall. unfold merge_projects.
  destruct (same_project source destination); [by eauto|].
  match goal with |- context [if ?c then (Raise (MergeSchemaConflict _ _), _, _) else _] =>
    destruct c; [by eauto|] end.
  match goal with |- context [_merge_json_dicts dump ?a ?b ?c ?d ?e ?f] =>
    destruct (merge_json_dicts_dry_run dump d a b c e f eq_refl) as (r0 & t0 & ->)
  end.
  assert (Hd : {| root_directory := root_directory destination;
                  document := document destination;
                  jobs := jobs destination |} = destination) by by destruct destination.
  rewrite Hd. destruct r0 as [sk0|e]; [|by eauto].
  match goal with |- context [merge_each_job _ _ _ ?a ?b ?c ?d ?e ?f _ ?g ?h ?i ?j] =>
    destruct (merge_each_job_dry_run a b c d e destination eq_refl f g h i j Hall)
      as (r1 & w1 & -> & Hb1)
  end.
  simpl in Hb1. destruct r1 as [[[sk1 c1] m1]|e]; [|by eauto].
  eexists _, _. split; [reflexivity|]. done.
Qed.
End dry_run_projects.

(** * Further properties *)

(** ** More on the document merge *)

(** X1: under a dry run the document merge leaves the destination as it is and
    performs no assignment. *)
Lemma merge_dicts_dry_run src dst strategy proxy t :
  dry_run proxy = true ->
  exists r t',
    _merge_dicts src dst strategy proxy t = (r, dst, t')
    /\ assigned t' = assigned t.
Proof.
  intros Hdry.
  destruct (_merge_dicts src dst strategy proxy t) as [[r v] t'] eqn:Hm.
  destruct (merge_dicts_blind strategy proxy src _ _ t _ _ _ Hm)
    as (? & _ & _ & Hd).
  destruct (Hd Hdry) as [Ha ->]. eauto.
Qed.

Lemma merge_dicts_dry_run_witness :
  exists r t',
    _merge_dicts (VDict [("a", VInt 1); ("b", VInt 2)]) (VDict [("a", VInt 99)])
      (Some always) {| dry_run := true |} no_trace
    = (r, VDict [("a", VInt 99)], t')
    /\ assigned t' = assigned no_trace.
Proof. apply merge_dicts_dry_run. reflexivity. Defined.

Lemma assoc_is_Some_keys {A} k (d : list (string * A)) :
  is_Some (assoc k d) <-> k ∈ keys d.
Proof.
  rewrite <- not_eq_None_Some, assoc_None.
  destruct (decide (k ∈ keys d)); naive_solver.
Qed.

Lemma merge_items_declined mn strategy proxy :
  declines strategy ->
  forall src d sk t,
    NoDup (keys src) ->
    exists sk' d' t',
      merge_items mn strategy proxy src (VDict d) sk t = (Ok sk', VDict d', t')
      /\ (forall k, is_Some (assoc k d) -> assoc k d' = assoc k d)
      /\ (dry_run proxy = false ->
          forall k v, assoc k src = Some v -> assoc k d = None ->
                      assoc k d' = Some v)
      /\ (forall k, k ∈ sk' <->
                    k ∈ sk \/ exists v w, assoc k src = Some v
                                          /\ assoc k d = Some w
                                          /\ py_eq w v = false).
Proof.
  intros Hdec. induction src as [|[key value] rest IH]; intros d sk t Hnd.
  - exists sk, d, t. simpl. split; [done|]. split; [done|]. split; [done|].
    intros k. naive_solver.
  - simpl in Hnd. apply NoDup_cons in Hnd as [Hkey Hnd].
    assert (Hrest : assoc key rest = None) by by apply assoc_None.
    cbn [merge_items py_contains py_getitem].
    destruct (assoc key d) as [w|] eqn:Hd.
    + rewrite bool_decide_eq_true_2 by eauto.
      assert (Hskip : forall sk0,
        (forall k, k ∈ sk0 <-> k ∈ sk \/ (k = key /\ py_eq w value = false)) ->
        exists sk' d' t',
          merge_items mn strategy proxy rest (VDict d) sk0 t = (Ok sk', VDict d', t')
          /\ (forall k, is_Some (assoc k d) -> assoc k d' = assoc k d)
          /\ (dry_run proxy = false ->
              forall k v, assoc k ((key, value) :: rest) = Some v ->
                          assoc k d = None -> assoc k d' = Some v)
          /\ (forall k, k ∈ sk' <->
                        k ∈ sk \/ exists v w0, assoc k ((key, value) :: rest) = Some v
                                               /\ assoc k d = Some w0
                                               /\ py_eq w0 v = false)).
      { intros sk0 Hsk0.
        destruct (IH d sk0 t Hnd) as (sk' & d' & t' & -> & Hkeep & Hadd & Hsk).
        exists sk', d', t'. split; [done|]. split; [done|]. split.
        - intros Hdry k v Hk Hkd. simpl in Hk.
          destruct (String.eqb_spec k key) as [->|Hne]; [congruence|]. eauto.
        - intros k. rewrite Hsk, Hsk0. simpl.
          destruct (String.eqb_spec k key) as [->|Hne].
          + rewrite Hrest, Hd. naive_solver.
          + naive_solver. }
      destruct (py_eq w value) eqn:Heq.
      { apply Hskip. naive_solver. }
      assert (Hs : forall k, k ∈ ({[key]} ∪ sk : gset string) <->
                             k ∈ sk \/ (k = key /\ false = false)) by set_solver.
      destruct strategy as [f|]; [|by apply Hskip].
      simpl in Hdec. rewrite Hdec. by apply Hskip.
    + rewrite bool_decide_eq_false_2 by (intros [? ?]; done).
      unfold set_value, py_setitem. destruct (dry_run proxy) eqn:Hdry.
      * destruct (IH d sk (logged (LogSet key value) t) Hnd)
          as (sk' & d' & t' & -> & Hkeep & Hadd & Hsk).
        exists sk', d', t'. split; [done|]. split; [done|]. split; [done|].
        intros k. rewrite Hsk. simpl.
        destruct (String.eqb_spec k key) as [->|Hne]; [|done].
        rewrite Hrest, Hd. naive_solver.
      * set (d1 := assoc_set key value d).
        match goal with |- context [merge_items _ _ _ rest (VDict d1) sk ?t1] =>
          destruct (IH d1 sk t1 Hnd) as (sk' & d' & t' & -> & Hkeep & Hadd & Hsk)
        end.
        assert (Hd1 : forall k, k <> key -> assoc k d1 = assoc k d)
          by (intros; by apply assoc_set_ne).
        exists sk', d', t'. split; [done|]. split; [|split].
        -- intros k Hk. assert (k <> key) by (intros ->; destruct Hk; congruence).
           rewrite <- Hd1 by done. apply Hkeep. by rewrite Hd1.
        -- intros _ k v Hk Hkd. simpl in Hk.
           destruct (String.eqb_spec k key) as [->|Hne].
           ++ injection Hk as <-. rewrite Hkeep; unfold d1; rewrite assoc_set_eq; eauto.
           ++ apply Hadd; [done..|]. by rewrite Hd1.
        -- intros k. rewrite Hsk. simpl.
           destruct (String.eqb_spec k key) as [->|Hne].
           ++ rewrite Hrest, Hd. naive_solver.
           ++ by rewrite Hd1.
Qed.

Lemma well_formed_dict d :
  well_formed (VDict d) <-> NoDup (keys d) /\ Forall (fun e => well_formed e.2) d.
Proof.
  simpl. apply and_iff_compat_l.
  induction d as [|[k v] d IH]; simpl.
  - split; [constructor|done].
  - rewrite Forall_cons, IH. done.
Qed.

Lemma py_eq_dict xs ys :
  py_eq (VDict xs) (VDict ys) = true <->
  length xs = length ys
  /\ Forall (fun e => exists w, assoc e.1 ys = Some w /\ py_eq e.2 w = true) xs.
Proof.
  simpl. rewrite andb_true_iff, Nat.eqb_eq. apply and_iff_compat_l.
  induction xs as [|[k v] xs IH].
  - split; [constructor|done].
  - rewrite Forall_cons. simpl. destruct (assoc k ys) as [w|].
    + rewrite andb_true_iff, IH. naive_solver.
    + naive_solver.
Qed.

Lemma assoc_elem_of {A} k (v : A) d : assoc k d = Some v -> (k, v) ∈ d.
Proof.
  induction d as [|[k' v'] d IH]; simpl; [done|].
  destruct (String.eqb_spec k k') as [->|Hne].
  - intros [= ->]. set_solver.
  - intros H. set_solver.
Qed.

Lemma py_eq_scalar_sym v w : is_Mapping v = false -> py_eq v w = py_eq w v.
Proof.
  destruct v as [|x|x|x|d], w as [|y|y|y|d']; simpl; try done; intros _.
  - by destruct x, y.
  - apply Z.eqb_sym.
  - apply Z.eqb_sym.
  - apply Z.eqb_sym.
  - apply String.eqb_sym.
Qed.

(** [==] on documents is symmetric. *)
Lemma py_eq_sym a :
  forall b, well_formed a -> well_formed b -> py_eq a b = true -> py_eq b a = true.
Proof.
  induction a as [| x | x | x | xs IH] using value_rect'; intros b Ha Hb H.
  1-4: rewrite <- py_eq_scalar_sym; done.
  destruct b as [| | | |ys]; try done.
  apply well_formed_dict in Ha as [Hndx Hwx]. apply well_formed_dict in Hb as [Hndy Hwy].
  apply py_eq_dict in H as [Hlen Hall]. apply py_eq_dict. split; [done|].
  assert (Hperm : keys xs ≡ₚ keys ys).
  { apply submseteq_length_Permutation.
    - apply NoDup_submseteq; [done|]. intros k Hk.
      apply list_elem_of_fmap in Hk as [[k' v] [-> Hkv]].
      rewrite Forall_forall in Hall. destruct (Hall _ Hkv) as (w & Hw & _).
      apply assoc_is_Some_keys. eauto.
    - unfold keys. rewrite !length_map. lia. }
  apply Forall_forall. intros [k w] Hkw. simpl.
  assert (Hk : k ∈ keys xs).
  { rewrite Hperm. apply list_elem_of_fmap. by exists (k, w). }
  apply assoc_is_Some_keys in Hk as [v Hv]. exists v. split; [done|].
  apply assoc_elem_of in Hv as Hin.
  rewrite Forall_forall in Hall, IH, Hwx, Hwy.
  destruct (Hall _ Hin) as (w' & Hw' & Heq). simpl in *.
  rewrite (assoc_In_NoDup k w ys Hndy Hkw) in Hw'. injection Hw' as <-.
  apply (IH _ Hin); [apply (Hwx _ Hin) | apply (Hwy _ Hkw) | done].
Qed.

(** X2: without a strategy, or with one that always declines, the document
    merge of well-formed documents does not raise; it leaves every key that
    the destination has with its value, adds (unless it is a dry run) the
    keys that the destination lacks, with the source's values, and returns
    as skipped exactly the keys that the two have with unequal values. *)
Theorem merge_dicts_declined (src dst : items) (strategy : option callable)
    (proxy : _DataModifyProxy) (t : trace) :
  declines strategy ->
  well_formed (VDict src) ->
  well_formed (VDict dst) ->
  exists sk dst' t',
    _merge_dicts (VDict src) (VDict dst) strategy proxy t = (Ok sk, VDict dst', t')
    /\ (forall k, is_Some (assoc k dst) -> assoc k dst' = assoc k dst)
    /\ (dry_run proxy = false ->
        forall k v, assoc k src = Some v -> assoc k dst = None ->
                    assoc k dst' = Some v)
    /\ (forall k, k ∈ sk <->
                  exists v w, assoc k src = Some v /\ assoc k dst = Some w
                              /\ py_eq w v = false).
Proof.
  intros Hdec Hs Hd. cbn [_merge_dicts].
  destruct (py_eq (VDict src) (VDict dst)) eqn:Heq.
  - exists ∅, dst, t. split; [done|]. split; [done|].
    apply py_eq_dict in Heq as Hsp. destruct Hsp as [_ Hall].
    rewrite Forall_forall in Hall.
    apply well_formed_dict in Hs as Hs'. destruct Hs' as [_ Hws].
    apply well_formed_dict in Hd as Hd'. destruct Hd' as [_ Hwd].
    rewrite Forall_forall in Hws, Hwd.
    split.
    + intros _ k v Hk Hkd. apply assoc_elem_of in Hk.
      destruct (Hall _ Hk) as (w & Hw & _). simpl in Hw. congruence.
    + intros k. split; [set_solver|]. intros (v & w & Hv & Hw & Hne).
      apply assoc_elem_of in Hv, Hw.
      destruct (Hall _ Hv) as (w' & Hw' & Hvw). simpl in *.
      apply assoc_elem_of in Hw' as Hin'.
      apply well_formed_dict in Hd as [Hnd _].
      rewrite (assoc_In_NoDup k w dst Hnd Hw) in Hw'. injection Hw' as <-.
      apply py_eq_sym in Hvw; [congruence | apply (Hws _ Hv) | apply (Hwd _ Hw)].
  - apply well_formed_dict in Hs as [Hnd _].
    destruct (merge_items_declined
                (fun s d t => _merge_dicts s d strategy proxy t) strategy proxy
                Hdec src dst ∅ t Hnd) as (sk & d' & t' & -> & Hkeep & Hadd & Hsk).
    exists sk, d', t'. split; [done|]. split; [done|]. split; [done|].
    intros k. rewrite Hsk. set_solver.
Qed.

Lemma merge_dicts_declined_witness :
  exists sk dst' t',
    _merge_dicts (VDict [("a", VInt 1); ("b", VInt 2)])
      (VDict [("a", VInt 99); ("c", VInt 3)]) None real no_trace
    = (Ok sk, VDict dst', t')
    /\ (forall k, is_Some (assoc k [("a", VInt 99); ("c", VInt 3)]) ->
                  assoc k dst' = assoc k [("a", VInt 99); ("c", VInt 3)])
    /\ (dry_run real = false ->
        forall k v, assoc k [("a", VInt 1); ("b", VInt 2)] = Some v ->
                    assoc k [("a", VInt 99); ("c", VInt 3)] = None ->
                    assoc k dst' = Some v)
    /\ (forall k, k ∈ sk <->
                  exists v w, assoc k [("a", VInt 1); ("b", VInt 2)] = Some v
                              /\ assoc k [("a", VInt 99); ("c", VInt 3)] = Some w
                              /\ py_eq w v = false).
Proof.
  apply merge_dicts_declined.
  - exact I.
  - apply well_formed_dict. split; [|repeat constructor].
    apply (bool_decide_unpack _). vm_compute. exact I.
  - apply well_formed_dict. split; [|repeat constructor].
    apply (bool_decide_unpack _). vm_compute. exact I.
Defined.

Lemma py_eq_scalar_refl v : is_Mapping v = false -> py_eq v v = true.
Proof.
  destruct v as [|x|x|x|d]; simpl; try done; intros _.
  - by destruct x.
  - apply Z.eqb_refl.
  - apply String.eqb_refl.
Qed.

Lemma merge_items_accepted mn strategy proxy :
  accepts strategy ->
  dry_run proxy = false ->
  forall src d sk t,
    NoDup (keys src) ->
    Forall (fun e => is_Mapping e.2 = false) src ->
    exists d' t',
      merge_items mn strategy proxy src (VDict d) sk t = (Ok sk, VDict d', t')
      /\ (forall k v, assoc k src = Some v ->
                      exists w, assoc k d' = Some w /\ py_eq w v = true)
      /\ (forall k, assoc k src = None -> assoc k d' = assoc k d).
Proof.
  intros Hacc Hdry. destruct strategy as [f|]; [|done]. simpl in Hacc.
  induction src as [|[key value] rest IH]; intros d sk t Hnd Hflat.
  - exists d, t. simpl. done.
  - simpl in Hnd. apply NoDup_cons in Hnd as [Hkey Hnd].
    apply Forall_cons in Hflat as [Hval Hflat]. simpl in Hval.
    assert (Hrest : assoc key rest = None) by by apply assoc_None.
    assert (Hkeep : forall d1 t1 w,
      assoc key d1 = Some w -> py_eq w value = true ->
      (forall k, k <> key -> assoc k d1 = assoc k d) ->
      exists d' t',
        merge_items mn (Some f) proxy rest (VDict d1) sk t1 = (Ok sk, VDict d', t')
        /\ (forall k v, assoc k ((key, value) :: rest) = Some v ->
                        exists w, assoc k d' = Some w /\ py_eq w v = true)
        /\ (forall k, assoc k ((key, value) :: rest) = None ->
                      assoc k d' = assoc k d)).
    { intros d1 t1 w Hw Heq Hd1.
      destruct (IH d1 sk t1 Hnd Hflat) as (d' & t' & -> & Hsrc & Hother).
      exists d', t'. split; [done|]. split.
      - intros k v. simpl. destruct (String.eqb_spec k key) as [->|Hne].
        + intros [= <-]. rewrite (Hother key Hrest). eauto.
        + apply Hsrc.
      - intros k. simpl. destruct (String.eqb_spec k key) as [->|Hne]; [done|].
        intros Hk. rewrite (Hother k Hk). by apply Hd1. }
    assert (Hassign : forall t1,
      exists d' t',
        merge_items mn (Some f) proxy rest (VDict (assoc_set key value d)) sk t1
        = (Ok sk, VDict d', t')
        /\ (forall k v, assoc k ((key, value) :: rest) = Some v ->
                        exists w, assoc k d' = Some w /\ py_eq w v = true)
        /\ (forall k, assoc k ((key, value) :: rest) = None ->
                      assoc k d' = assoc k d)).
    { intros t1. apply (Hkeep _ t1 value).
      - apply assoc_set_eq.
      - by apply py_eq_scalar_refl.
      - intros k Hne. by apply assoc_set_ne. }
    cbn [merge_items py_contains py_getitem].
    unfold set_value, py_setitem. rewrite Hdry.
    destruct (assoc key d) as [w|] eqn:Hd.
    + rewrite bool_decide_eq_true_2 by eauto.
      destruct (py_eq w value) eqn:Heq; [by apply (Hkeep d t w)|].
      rewrite Hacc, Hval. apply Hassign.
    + rewrite bool_decide_eq_false_2 by (intros [? ?]; done). apply Hassign.
Qed.

(** X3: with a strategy that accepts every key, and not as a dry run, the
    merge of a source whose values are all scalars does not raise and skips
    no key; afterwards the destination has, for every key of the source, a
    value equal to the source's, and the other keys as before. *)
Theorem merge_dicts_accepted_flat (src dst : items) (strategy : option callable)
    (proxy : _DataModifyProxy) (t : trace) :
  accepts strategy ->
  dry_run proxy = false ->
  NoDup (keys src) ->
  Forall (fun e => is_Mapping e.2 = false) src ->
  exists dst' t',
    _merge_dicts (VDict src) (VDict dst) strategy proxy t = (Ok ∅, VDict dst', t')
    /\ (forall k v, assoc k src = Some v ->
                    exists w, assoc k dst' = Some w /\ py_eq w v = true)
    /\ (forall k, assoc k src = None -> assoc k dst' = assoc k dst).
Proof.
  intros Hacc Hdry Hnd Hflat. cbn [_merge_dicts].
  destruct (py_eq (VDict src) (VDict dst)) eqn:Heq.
  - exists dst, t. split; [done|]. split; [|done].
    apply py_eq_dict in Heq as [_ Hall]. rewrite Forall_forall in Hall, Hflat.
    intros k v Hk. apply assoc_elem_of in Hk.
    destruct (Hall _ Hk) as (w & Hw & Hvw). exists w. split; [done|].
    rewrite <- py_eq_scalar_sym; [done|]. apply (Hflat _ Hk).
  - by apply merge_items_accepted.
Qed.

Lemma merge_dicts_accepted_flat_witness :
  exists dst' t',
    _merge_dicts (VDict [("a", VInt 1); ("b", VStr "x")])
      (VDict [("a", VInt 99); ("c", VNone)]) (Some always) real no_trace
    = (Ok ∅, VDict dst', t')
    /\ (forall k v, assoc k [("a", VInt 1); ("b", VStr "x")] = Some v ->
                    exists w, assoc k dst' = Some w /\ py_eq w v = true)
    /\ (forall k, assoc k [("a", VInt 1); ("b", VStr "x")] = None ->
                  assoc k dst' = assoc k [("a", VInt 99); ("c", VNone)]).
Proof.
  apply merge_dicts_accepted_flat.
  - intros key. reflexivity.
  - reflexivity.
  - apply (bool_decide_unpack _). vm_compute. exact I.
  - repeat constructor.
Defined.

Lemma merge_items_skipped_keys mn strategy proxy :
  forall src,
    Forall (fun e => forall dv t sk v t',
              mn e.2 dv t = (Ok sk, v, t') -> sk ⊆ all_keys e.2) src ->
    forall dst sk0 t sk v t',
      merge_items mn strategy proxy src dst sk0 t = (Ok sk, v, t') ->
      sk ⊆ sk0 ∪ all_keys (VDict src).
Proof.
  induction src as [|[key value] rest IH]; intros Hall dst sk0 t sk v t' H.
  - simpl in H. injection H as <- <- <-. set_solver.
  - apply Forall_cons in Hall as [Hval Hall]. simpl in Hval.
    specialize (IH Hall).
    assert (Hmono : forall dst1 sk1 t1,
      sk1 ⊆ sk0 ∪ {[key]} ∪ all_keys value ->
      merge_items mn strategy proxy rest dst1 sk1 t1 = (Ok sk, v, t') ->
      sk ⊆ sk0 ∪ all_keys (VDict ((key, value) :: rest))).
    { intros dst1 sk1 t1 Hsk1 H1. apply IH in H1.
      change (all_keys (VDict ((key, value) :: rest)))
        with ({[key]} ∪ all_keys value ∪ all_keys (VDict rest)).
      set_solver. }
    assert (Hassign : forall dst1 t1,
      match set_value proxy dst1 key value t1 with
      | (Ok _, dst, t) => merge_items mn strategy proxy rest dst sk0 t
      | (Raise e, dst, t) => (Raise e, dst, t)
      end = (Ok sk, v, t') ->
      sk ⊆ sk0 ∪ all_keys (VDict ((key, value) :: rest))).
    { intros dst1 t1 H1.
      destruct (set_value proxy dst1 key value t1) as [[[] d1] t1']; [|done].
      eapply Hmono; [|exact H1]. set_solver. }
    cbn [merge_items] in H.
    destruct (py_contains key dst) as [[]|e]; [|by eapply Hassign|done].
    destruct (py_getitem dst key) as [dv|e]; [|done].
    destruct (py_eq dv value); [eapply Hmono; [|exact H]; set_solver|].
    destruct strategy as [f|]; [|eapply Hmono; [|exact H]; set_solver].
    destruct (call1 f key) as [[]|e]; [|eapply Hmono; [|exact H]; set_solver|done].
    destruct (is_Mapping value); [|by eapply Hassign].
    destruct (mn value dv t) as [[[sk1|e] nested] t1] eqn:Hmn.
    + apply Hval in Hmn. eapply Hmono; [|exact H]. set_solver.
    + destruct e; try done. by eapply Hassign.
Qed.

(** X4: every key that the document merge returns as skipped is a key of the
    source, at some depth: the keys skipped by the merges of nested
    documents are returned with the others, under their own names. *)
Theorem merge_dicts_skipped_are_source_keys (src dst : value)
    (strategy : option callable) (proxy : _DataModifyProxy) (t : trace)
    (sk : gset string) (dst' : value) (t' : trace) :
  _merge_dicts src dst strategy proxy t = (Ok sk, dst', t') ->
  sk ⊆ all_keys src.
Proof.
  revert dst t sk dst' t'.
  induction src as [| | | |d IH] using value_rect'; intros dst t sk dst' t' H;
    cbn [_merge_dicts] in H.
  1-4: destruct (py_eq _ dst); [injection H as <- <- <-; set_solver | done].
  destruct (py_eq (VDict d) dst); [injection H as <- <- <-; set_solver|].
  apply merge_items_skipped_keys in H; [set_solver|].
  eapply Forall_impl; [exact IH|]. intros e He dv t0 sk0 v0 t0' Hm. by eapply He.
Qed.

Lemma merge_dicts_skipped_are_source_keys_witness :
  ({["x"]} : gset string) ⊆ all_keys (VDict [("a", VDict [("x", VInt 1)])]).
Proof.
  apply (merge_dicts_skipped_are_source_keys
           (VDict [("a", VDict [("x", VInt 1)])])
           (VDict [("a", VDict [("x", VInt 2)])])
           (Some (Fn1 (fun key => Ok (String.eqb key "a")))) real no_trace
           {["x"]} (VDict [("a", VDict [("x", VInt 2)])]) no_trace).
  vm_compute. reflexivity.
Defined.

(** ** More on the transactional document merge *)

(** X6: when the backing file exists and a backup file is already there, the
    transactional merge raises [RuntimeError] before it does anything: the
    document and every file, the stale backup included, are as they were.
    This holds under a dry run too. *)
Theorem merge_json_dicts_stale_backup (dump : value -> string) (src : value)
    (dst : JSONDict) (strategy : option callable) (proxy : _DataModifyProxy)
    (fs : files) (t : trace) (fn : string) :
  _filename dst = Some fn ->
  is_Some (fs !! fn) ->
  is_Some (fs !! (fn +:+ "~")) ->
  _merge_json_dicts dump src dst strategy proxy fs t
  = (Raise RuntimeError, dst, fs, logged (LogCreateBackup fn) t).
Proof.
  intros Hfn Hf Hbk. unfold _merge_json_dicts, create_backup, isfile.
  rewrite Hfn. by rewrite !bool_decide_eq_true_2 by done.
Qed.

Lemma merge_json_dicts_stale_backup_witness :
  let dst := {| _filename := Some "doc.json"; data := [("a", VInt 0)] |} in
  let fs : files := {["doc.json" := "{new}"; "doc.json~" := "{old}"]} in
  _merge_json_dicts (fun _ => "{merged}") (VDict [("a", VInt 1)]) dst
    (Some always) real fs no_trace
  = (Raise RuntimeError, dst, fs, logged (LogCreateBackup "doc.json") no_trace).
Proof.
  intros dst fs.
  apply (merge_json_dicts_stale_backup _ _ dst _ _ fs _ "doc.json").
  - reflexivity.
  - exists "{new}". reflexivity.
  - exists "{old}". reflexivity.
Defined.

Lemma merge_dicts_JSONDict_frame dump src dst strategy proxy fs t p :
  (forall fn, _filename dst = Some fn -> p <> fn) ->
  (_merge_dicts_JSONDict dump src dst strategy proxy fs t).1.2 !! p = fs !! p
  /\ _filename (_merge_dicts_JSONDict dump src dst strategy proxy fs t).1.1.2
     = _filename dst.
Proof.
  intros Hp. unfold _merge_dicts_JSONDict.
  destruct (_merge_dicts _ _ _ _ _) as [[r v] t']. simpl. split; [|done].
  destruct (_filename dst) as [fn|]; [|done].
  destruct (_ <? _)%nat; [|done]. rewrite lookup_insert_ne; [done|].
  intros <-. by apply (Hp fn).
Qed.

(** X7: the transactional merge of a document backed by the file [fn], when
    no backup file is in the way, changes no file but [fn]: whatever the
    outcome, every other path has afterwards what it had before; in
    particular no backup file is left.  A document that no file backs
    changes no file at all. *)
Theorem merge_json_dicts_frame (dump : value -> string) (src : value)
    (dst : JSONDict) (strategy : option callable) (proxy : _DataModifyProxy)
    (fs : files) (t : trace) :
  match _filename dst with
  | None => (_merge_json_dicts dump src dst strategy proxy fs t).1.2 = fs
  | Some fn =>
      fs !! (fn +:+ "~") = None ->
      forall p, p <> fn ->
        (_merge_json_dicts dump src dst strategy proxy fs t).1.2 !! p = fs !! p
  end.
Proof.
  unfold _merge_json_dicts. destruct (_filename dst) as [fn|] eqn:Hfn.
  2: { unfold _merge_dicts_JSONDict. rewrite Hfn.
       by destruct (_merge_dicts _ _ _ _ _) as [[r v] t']. }
  intros Hbk p Hp.
  assert (Hinner : forall fs0 t0,
    (_merge_dicts_JSONDict dump src dst strategy proxy fs0 t0).1.2 !! p = fs0 !! p).
  { intros fs0 t0. apply merge_dicts_JSONDict_frame. intros fn' Hfn'. congruence. }
  destruct (negb (isfile fn fs)) eqn:Hfile; [apply Hinner|].
  apply negb_false_iff in Hfile. unfold isfile in Hfile.
  apply bool_decide_eq_true_1 in Hfile as [c Hc].
  unfold create_backup, isfile. rewrite Hbk.
  rewrite bool_decide_eq_false_2 by (intros [? ?]; done).
  set (t1 := logged (LogCreateBackup fn) t).
  assert (Hne := backup_path_ne fn).
  destruct (dry_run proxy) eqn:Hdry.
  - specialize (Hinner fs t1).
    destruct (_merge_dicts_JSONDict dump src dst strategy proxy fs t1)
      as [[[[sk|e] d1] fs1] t1']; simpl in Hinner; [done|].
    unfold copy, proxy_do. by rewrite Hdry.
  - unfold shutil_copy_file at 1. rewrite Hc.
    set (fs0 := <[fn +:+ "~" := c]> fs).
    pose proof (Hinner fs0 t1) as Hp1.
    assert (Hb1 : (_merge_dicts_JSONDict dump src dst strategy proxy fs0 t1).1.2
                  !! (fn +:+ "~") = Some c).
    { destruct (merge_dicts_JSONDict_frame dump src dst strategy proxy fs0 t1
                  (fn +:+ "~")) as [-> _].
      - intros fn' Hfn'. congruence.
      - unfold fs0. apply lookup_insert_eq. }
    destruct (_merge_dicts_JSONDict dump src dst strategy proxy fs0 t1)
      as [[[[sk|e] d1] fs1] t1']; simpl in Hp1, Hb1.
    + unfold os_remove. rewrite Hb1. simpl.
      destruct (decide (p = fn +:+ "~")) as [->|Hpb].
      * by rewrite lookup_delete_eq.
      * rewrite lookup_delete_ne by done. rewrite Hp1. unfold fs0.
        by rewrite lookup_insert_ne.
    + unfold copy, proxy_do, shutil_copy_file. rewrite Hdry, Hb1.
      unfold os_remove. rewrite lookup_insert_ne by done. rewrite Hb1. simpl.
      destruct (decide (p = fn +:+ "~")) as [->|Hpb].
      * by rewrite lookup_delete_eq.
      * rewrite lookup_delete_ne by done. rewrite lookup_insert_ne by done.
        rewrite Hp1. unfold fs0. by rewrite lookup_insert_ne.
Qed.

Lemma merge_json_dicts_frame_witness :
  let dst := {| _filename := Some "doc.json"; data := [("a", VInt 0)] |} in
  let fs : files := {["doc.json" := "{old}"; "other.json" := "{other}"]} in
  (_merge_json_dicts (fun _ => "{merged}") (VDict [("a", VInt 1)]) dst
     (Some always) real fs no_trace).1.2 !! "other.json" = fs !! "other.json"
  /\ (_merge_json_dicts (fun _ => "{merged}") (VDict [("a", VInt 1)]) dst
        (Some always) real fs no_trace).1.2 !! "doc.json~" = fs !! "doc.json~".
Proof.
  intros dst fs.
  pose proof (merge_json_dicts_frame (fun _ => "{merged}") (VDict [("a", VInt 1)])
                dst (Some always) real fs no_trace) as H.
  simpl in H. split; apply H; (reflexivity || discriminate).
Defined.

(** X8: in a merge that is not a dry run, when no backup file is in the way,
    [create_backup] leaves no backup file behind, whatever the body of the
    [with] statement does and however it ends; and when the file to back up
    exists, the outcome is the outcome of the body, run with the backup in
    place. *)
Theorem create_backup_released {A S : Type} (proxy : _DataModifyProxy)
    (path : string)
    (body : string -> S -> files -> trace -> result A * S * files * trace)
    (s : S) (fs : files) (t : trace) :
  dry_run proxy = false ->
  fs !! (path +:+ "~") = None ->
  (create_backup proxy path body s fs t).1.2 !! (path +:+ "~") = None
  /\ forall c, fs !! path = Some c ->
       (create_backup proxy path body s fs t).1.1.1
       = (body (path +:+ "~") s (<[path +:+ "~" := c]> fs)
            (logged (LogCreateBackup path) t)).1.1.1.
Proof.
  intros Hdry Hbk. unfold create_backup, isfile. rewrite Hbk, Hdry.
  rewrite bool_decide_eq_false_2 by (intros [? ?]; done).
  unfold shutil_copy_file. destruct (fs !! path) as [c|] eqn:Hc.
  - destruct (body _ s _ _) as [[[r s1] fs1] t1] eqn:Hb.
    unfold os_remove. split.
    + destruct (fs1 !! (path +:+ "~")) eqn:H1; simpl; [|done].
      by rewrite lookup_delete_eq.
    + intros c' [= <-]. rewrite Hb.
      by destruct (fs1 !! (path +:+ "~")).
  - split; [|done]. unfold os_remove. by rewrite Hbk.
Qed.

Lemma create_backup_released_witness :
  let fs : files := {["doc.json" := "{old}"]} in
  let body := fun (bk : string) (s : unit) (fs : files) (t : trace) =>
                (Raise (A := unit) (UserError "boom"), s,
                 <["doc.json" := "{broken}"]> fs, t) in
  (create_backup real "doc.json" body () fs no_trace).1.2 !! "doc.json~" = None
  /\ forall c, fs !! "doc.json" = Some c ->
       (create_backup real "doc.json" body () fs no_trace).1.1.1
       = (body "doc.json~" () (<["doc.json~" := c]> fs)
            (logged (LogCreateBackup "doc.json") no_trace)).1.1.1.
Proof.
  intros fs body.
  apply (create_backup_released real "doc.json" body () fs no_trace); reflexivity.
Defined.

(** ** More on the directory merge *)

Lemma listing_spec d x : x ∈ listing d <-> x ∈ keys d /\ ignored x = false.
Proof.
  unfold listing, ignored. rewrite elem_of_sorted, list_elem_of_filter.
  rewrite <- negb_true_iff. split; intros [H1 H2]; split; try done.
  - by apply Is_true_true.
  - by apply Is_true_true.
Qed.

Lemma common_spec a b x : x ∈ common a b -> x ∈ keys a /\ x ∈ keys b.
Proof.
  unfold common. rewrite list_elem_of_filter. intros [Hb Ha].
  apply Is_true_true, mem_true in Hb. apply listing_spec in Ha, Hb. naive_solver.
Qed.

Lemma diff_files_spec a b x : x ∈ diff_files a b -> x ∈ keys b.
Proof.
  unfold diff_files, common_files. rewrite !list_elem_of_filter.
  intros (_ & _ & H). by apply common_spec in H as [_ H].
Qed.

Lemma subdirs_spec a b x :
  x ∈ subdirs a b -> both_dirs a b x = true /\ x ∈ keys b.
Proof.
  unfold subdirs, common_dirs. rewrite list_elem_of_filter. intros [H1 H2].
  split; [by apply Is_true_true|]. by apply common_spec in H2 as [_ H2].
Qed.

Lemma left_only_elem a b x :
  x ∈ keys a -> assoc x b = None -> ignored x = false -> x ∈ left_only a b.
Proof.
  intros Ha Hb Hi. unfold left_only. apply list_elem_of_filter. split.
  - apply Is_true_true, negb_true_iff, not_true_iff_false. rewrite mem_true.
    intros H. apply listing_spec in H as [H _]. by apply assoc_None in Hb.
  - by apply listing_spec.
Qed.

(** The third loop changes the subdirectories it goes through, and no other
    entry. *)
Lemma merge_subdirs_other rec a src dst x :
  forall names d t,
    x ∉ names -> assoc x (merge_subdirs rec a src dst names d t).1.2 = assoc x d.
Proof.
  induction names as [|subdir names IH]; intros d t Hx; [done|].
  cbn [merge_subdirs].
  destruct (merge_in_subdir rec src dst a subdir d t) as [[r1 d1] t1] eqn:H1.
  apply merge_in_subdir_other with (x := x) in H1; [|set_solver].
  destruct r1; simpl; [|done]. rewrite IH by set_solver. done.
Qed.

Section dirs_more.
Variable re_match : string -> string -> bool.
Variable now : Z.

Lemma proxy_do_other {S : Type} proxy r (act : S -> result S) (P : S -> Prop) s t :
  P s -> (forall s', act s = Ok s' -> P s') -> P (proxy_do proxy r act s t).1.2.
Proof.
  intros Hs Hact. unfold proxy_do. destruct (dry_run proxy); [done|].
  destruct (act s) eqn:Ha; simpl; eauto.
Qed.

(** The first loop changes the entries it goes through, and no other. *)
Lemma merge_left_only_other a src dst exclude proxy x :
  forall fns d t,
    x ∉ fns \/ excluded re_match exclude x = true ->
    assoc x (merge_left_only re_match now a src dst exclude proxy fns d t).1.2
    = assoc x d.
Proof.
  induction fns as [|fn fns IH]; intros d t Hx; [done|].
  assert (Hx' : x ∉ fns \/ excluded re_match exclude x = true) by set_solver.
  cbn [merge_left_only].
  destruct (excluded re_match exclude fn) eqn:Hex; [by apply IH|].
  assert (Hne : x <> fn) by (intros ->; destruct Hx; [set_solver|congruence]).
  match goal with |- context [match ?c with _ => _ end] =>
    assert (Hstep : assoc x c.1.2 = assoc x d); [|destruct c as [[[] d1] t1]] end.
  { unfold copy, copytree.
    destruct (assoc fn a) as [[f|sub]|];
      apply (proxy_do_other _ _ _ (fun d' => assoc x d' = assoc x d)); try done;
      unfold shutil_copy, shutil_copytree; intros s' Hs';
      repeat case_match; simplify_eq; by apply assoc_set_ne. }
  - simpl in Hstep. rewrite IH by done. done.
  - done.
Qed.

(** So does the second loop. *)
Lemma merge_diff_files_other a src dst exclude strategy proxy x :
  forall fns d t,
    x ∉ fns \/ excluded re_match exclude x = true
    \/ keeps_theirs_out strategy ->
    assoc x (merge_diff_files re_match now a src dst exclude strategy proxy fns d t).1.2
    = assoc x d.
Proof.
  induction fns as [|fn fns IH]; intros d t Hx; [done|].
  assert (Hx' : x ∉ fns \/ excluded re_match exclude x = true
                \/ keeps_theirs_out strategy) by set_solver.
  cbn [merge_diff_files].
  destruct (excluded re_match exclude fn) eqn:Hex; [by apply IH|].
  destruct strategy as [f|]; [|done].
  destruct (call2 f _ _) as [[]|e] eqn:Hcall; [|by apply IH|done].
  assert (Hne : x <> fn).
  { intros ->. destruct Hx as [?|[?|Hk]]; [set_solver|congruence|].
    by apply Hk in Hcall. }
  match goal with |- context [match ?c with _ => _ end] =>
    assert (Hstep : assoc x c.1.2 = assoc x d); [|destruct c as [[[] d1] t1]] end.
  { unfold copy.
    apply (proxy_do_other _ _ _ (fun d' => assoc x d' = assoc x d)); [done|].
    unfold shutil_copy. intros s' Hs'.
    repeat case_match; simplify_eq; by apply assoc_set_ne. }
  - simpl in Hstep. rewrite IH by done. done.
  - done.
Qed.

(** An excluded name that is not a directory on both sides is
    left alone. *)
Lemma merge_dirs_excluded_entry a b src dst exclude strategy proxy t x :
  excluded re_match exclude x = true ->
  both_dirs a b x = false ->
  exists b',
    (_merge_dirs re_match now (Dir a) src dst exclude strategy proxy (Dir b) t).1.2
    = Dir b'
    /\ assoc x b' = assoc x b.
Proof.
  intros Hex Hdirs. cbn [_merge_dirs].
  pose proof (merge_left_only_other a src dst exclude proxy x (left_only a b) b t
                (or_intror Hex)) as H1.
  destruct (merge_left_only _ _ _ _ _ _ _ _ _ _) as [[[] d1] t1]; simpl in H1;
    [|eauto].
  pose proof (merge_diff_files_other a src dst exclude strategy proxy x
                (diff_files a b) d1 t1 (or_intror (or_introl Hex))) as H2.
  destruct (merge_diff_files _ _ _ _ _ _ _ _ _ _ _) as [[[] d2] t2]; simpl in H2;
    [|eexists; split; [done|congruence]].
  match goal with |- context [merge_subdirs ?rec a src dst ?ns d2 t2] =>
    pose proof (merge_subdirs_other rec a src dst x ns d2 t2) as H3;
    destruct (merge_subdirs rec a src dst ns d2 t2) as [[r3 d3] t3]
  end.
  simpl in *. eexists. split; [done|]. rewrite H3; [congruence|].
  intros Hin. apply subdirs_spec in Hin as [Hin _]. congruence.
Qed.
End dirs_more.

Section dirs_files.
Variable re_match : string -> string -> bool.
Variable now : Z.

Lemma merge_in_subdir_keeps_file rec src dst subdir p f :
  forall l,
    Forall (fun e => forall s q dn t p f,
              lookup_path p dn = Some (File f) ->
              lookup_path p (rec e.2 s q dn t).1.2 = Some (File f)) l ->
    forall d t,
      lookup_path p (Dir d) = Some (File f) ->
      lookup_path p (Dir (merge_in_subdir rec src dst l subdir d t).1.2)
      = Some (File f).
Proof.
  destruct p as [|x p']; [done|].
  destruct (decide (x = subdir)) as [->|Hx].
  - induction l as [|[name sub] l IH]; simpl; intros Hall d t Hd; [done|].
    apply Forall_cons in Hall as [Hsub Hall]. simpl in Hsub.
    destruct (String.eqb subdir name); [|by apply IH].
    destruct (assoc subdir d) as [dsub|] eqn:Hsd; [|done].
    specialize (Hsub (path_join src subdir) (path_join dst subdir) dsub t p' f Hd).
    destruct (rec sub _ _ dsub t) as [[r dsub'] t']. simpl in *.
    by rewrite assoc_set_eq.
  - intros l _ d t Hd.
    destruct (merge_in_subdir rec src dst l subdir d t) as [[r d'] t'] eqn:H.
    apply merge_in_subdir_other with (x := x) in H; [|done].
    simpl in *. by rewrite H.
Qed.

Lemma merge_subdirs_keeps_file rec a src dst p f :
  Forall (fun e => forall s q dn t p f,
            lookup_path p dn = Some (File f) ->
            lookup_path p (rec e.2 s q dn t).1.2 = Some (File f)) a ->
  forall names d t,
    lookup_path p (Dir d) = Some (File f) ->
    lookup_path p (Dir (merge_subdirs rec a src dst names d t).1.2) = Some (File f).
Proof.
  intros Hall. induction names as [|subdir names IH]; intros d t Hd; [done|].
  cbn [merge_subdirs].
  pose proof (merge_in_subdir_keeps_file rec src dst subdir p f a Hall d t Hd) as H1.
  destruct (merge_in_subdir rec src dst a subdir d t) as [[[] d1] t1];
    simpl in *; [by apply IH|done].
Qed.

Lemma merge_dirs_keeps_files strategy :
  keeps_theirs_out strategy ->
  forall fs_src src dst exclude proxy fs_dst t p f,
    lookup_path p fs_dst = Some (File f) ->
    lookup_path p
      (_merge_dirs re_match now fs_src src dst exclude strategy proxy fs_dst t).1.2
    = Some (File f).
Proof.
  intros Hkeep. induction fs_src as [f0|a IH] using node_rect';
    intros src dst exclude proxy fs_dst t p f Hp; [done|].
  cbn [_merge_dirs]. destruct fs_dst as [f0|b]; [done|].
  destruct p as [|x p']; [done|].
  assert (Hxb : is_Some (assoc x b)).
  { simpl in Hp. destruct (assoc x b); [eauto|done]. }
  pose proof (merge_left_only_other re_match now a src dst exclude proxy x
                (left_only a b) b t) as H1.
  destruct (merge_left_only _ _ _ _ _ _ _ _ _ _) as [[r1 d1] t1]; simpl in H1.
  assert (Hd1 : assoc x d1 = assoc x b).
  { apply H1. left. intros Hin. apply left_only_spec in Hin as [_ Hin].
    destruct Hxb. congruence. }
  destruct r1; [|simpl in *; by rewrite Hd1].
  pose proof (merge_diff_files_other re_match now a src dst exclude strategy proxy x
                (diff_files a b) d1 t1 (or_intror (or_intror Hkeep))) as H2.
  destruct (merge_diff_files _ _ _ _ _ _ _ _ _ _ _) as [[r2 d2] t2]; simpl in H2.
  assert (Hd2 : lookup_path (x :: p') (Dir d2) = Some (File f)).
  { simpl in *. by rewrite H2, Hd1. }
  destruct r2; [|done].
  match goal with |- context [merge_subdirs ?rec a src dst ?ns d2 t2] =>
    pose proof (merge_subdirs_keeps_file rec a src dst (x :: p') f) as H3;
    specialize (H3 ltac:(eapply Forall_impl; [exact IH|];
                         intros e He s q dn t0 p0 f0 Hl; by apply He) ns d2 t2 Hd2);
    destruct (merge_subdirs rec a src dst ns d2 t2) as [[r3 d3] t3]
  end.
  done.
Qed.

Lemma left_only_step_ok a src dst proxy fn d t :
  fn ∈ keys a ->
  assoc fn d = None ->
  exists d1 t1,
    match assoc fn a with
    | Some (File _) =>
        copy proxy (path_join src fn) (path_join dst fn)
          (shutil_copy now (assoc fn a) fn) d t
    | _ =>
        copytree proxy (path_join src fn) (path_join dst fn)
          (shutil_copytree (assoc fn a) fn) d t
    end = (Ok (), d1, t1)
    /\ (forall x, x <> fn -> assoc x d1 = assoc x d)
    /\ (dry_run proxy = false -> assoc fn d1 = copied now <$> assoc fn a).
Proof.
  intros Ha Hd. apply assoc_is_Some_keys in Ha as [n Hn]. rewrite Hn.
  unfold copy, copytree, proxy_do, shutil_copy, shutil_copytree. rewrite Hd.
  destruct n as [f|sub], (dry_run proxy); eexists _, _;
    (split; [reflexivity|]); (split; [|try done]);
    try (intros; by apply assoc_set_ne); try done.
  all: intros _; by rewrite assoc_set_eq.
Qed.

Lemma merge_left_only_copies a src dst exclude proxy fn n :
  dry_run proxy = false ->
  assoc fn a = Some n ->
  excluded re_match exclude fn = false ->
  forall fns d t,
    NoDup fns ->
    (forall x, x ∈ fns -> x ∈ keys a /\ assoc x d = None) ->
    fn ∈ fns ->
    assoc fn (merge_left_only re_match now a src dst exclude proxy fns d t).1.2
    = Some (copied now n).
Proof.
  intros Hdry Hn Hex. induction fns as [|y fns IH]; intros d t Hnd Hfns Hin;
    [by apply elem_of_nil in Hin|].
  apply NoDup_cons in Hnd as [Hy Hnd]. cbn [merge_left_only].
  destruct (Hfns y) as [Hya Hyd]; [set_solver|].
  destruct (decide (y = fn)) as [->|Hne].
  - rewrite Hex.
    destruct (left_only_step_ok a src dst proxy fn d t Hya Hyd)
      as (d1 & t1 & -> & _ & Hcopy).
    rewrite merge_left_only_other by (by left). rewrite Hcopy by done.
    by rewrite Hn.
  - assert (Hin' : fn ∈ fns) by set_solver.
    destruct (excluded re_match exclude y).
    { apply IH; [done| |done]. intros x Hx. apply Hfns. set_solver. }
    destruct (left_only_step_ok a src dst proxy y d t Hya Hyd)
      as (d1 & t1 & -> & Hother & _).
    apply IH; [done| |done]. intros x Hx.
    destruct (Hfns x) as [? ?]; [set_solver|]. split; [done|].
    rewrite Hother; [done|]. intros ->. done.
Qed.

Lemma merge_dirs_copies_left_only a b src dst exclude strategy proxy t fn n :
  NoDup (keys a) ->
  dry_run proxy = false ->
  assoc fn a = Some n ->
  assoc fn b = None ->
  ignored fn = false ->
  excluded re_match exclude fn = false ->
  exists b',
    (_merge_dirs re_match now (Dir a) src dst exclude strategy proxy (Dir b) t).1.2
    = Dir b'
    /\ assoc fn b' = Some (copied now n).
Proof.
  intros Hnd Hdry Hn Hb Hign Hex. cbn [_merge_dirs].
  assert (Hin : fn ∈ left_only a b).
  { apply left_only_elem; [|done..]. apply assoc_is_Some_keys. eauto. }
  pose proof (merge_left_only_copies a src dst exclude proxy fn n Hdry Hn Hex
                (left_only a b) b t (NoDup_left_only a b Hnd)
                (fun x Hx => left_only_spec a b x Hx) Hin) as H1.
  destruct (merge_left_only _ _ _ _ _ _ _ _ _ _) as [[[] d1] t1]; simpl in H1;
    [|eauto].
  pose proof (merge_diff_files_other re_match now a src dst exclude strategy proxy fn
                (diff_files a b) d1 t1) as H2.
  destruct (merge_diff_files _ _ _ _ _ _ _ _ _ _ _) as [[r2 d2] t2]; simpl in H2.
  assert (Hd2 : assoc fn d2 = Some (copied now n)).
  { rewrite H2; [done|]. left. intros Hd. apply diff_files_spec in Hd.
    by apply assoc_None in Hb. }
  destruct r2; [|eauto].
  match goal with |- context [merge_subdirs ?rec a src dst ?ns d2 t2] =>
    pose proof (merge_subdirs_other rec a src dst fn ns d2 t2) as H3;
    destruct (merge_subdirs rec a src dst ns d2 t2) as [[r3 d3] t3]
  end.
  simpl in *. eexists. split; [done|]. rewrite H3; [done|].
  intros Hs. apply subdirs_spec in Hs as [_ Hs]. by apply assoc_None in Hb.
Qed.
End dirs_files.

(** X9: under a dry run the directory merge leaves the destination tree as
    it is, whatever the source, the exclusion list and the strategy, and
    also when it raises. *)
Theorem merge_dirs_dry_run_keeps_tree re_match now (proxy : _DataModifyProxy)
    (fs_src : node) (src dst : string) (exclude : list string)
    (strategy : option callable) (fs_dst : node) (t : trace) :
  dry_run proxy = true ->
  (_merge_dirs re_match now fs_src src dst exclude strategy proxy fs_dst t).1.2
  = fs_dst.
Proof. intros Hdry. by apply merge_dirs_dry_run. Qed.

Lemma merge_dirs_dry_run_keeps_tree_witness :
  (_merge_dirs String.prefix 7
     (Dir [("new", regular "n" 1); ("x.txt", regular "source" 1)]) "/src" "/dst"
     [] (Some theirs) {| dry_run := true |}
     (Dir [("x.txt", regular "target" 2)]) no_trace).1.2
  = Dir [("x.txt", regular "target" 2)].
Proof. apply merge_dirs_dry_run_keeps_tree. reflexivity. Defined.

(** X10: without a strategy, or with one that never answers true (as
    [ours]), the directory merge changes no file that the destination has,
    at any depth, whatever the outcome. *)
Theorem merge_dirs_overwrites_nothing_unasked re_match now
    (strategy : option callable) (fs_src : node) (src dst : string)
    (exclude : list string) (proxy : _DataModifyProxy) (fs_dst : node)
    (t : trace) (p : list string) (f : file) :
  keeps_theirs_out strategy ->
  lookup_path p fs_dst = Some (File f) ->
  lookup_path p
    (_merge_dirs re_match now fs_src src dst exclude strategy proxy fs_dst t).1.2
  = Some (File f).
Proof. intros Hk Hp. by apply merge_dirs_keeps_files. Qed.

Lemma merge_dirs_overwrites_nothing_unasked_witness :
  lookup_path ["sub"; "x.txt"]
    (_merge_dirs String.prefix 7
       (Dir [("sub", Dir [("x.txt", regular "source" 9); ("new", regular "n" 1)])])
       "/src" "/dst" [] (Some ours) real
       (Dir [("sub", Dir [("x.txt", regular "target" 2)])]) no_trace).1.2
  = Some (regular "target" 2).
Proof.
  apply merge_dirs_overwrites_nothing_unasked.
  - intros fn_src fn_dst. discriminate.
  - reflexivity.
Defined.

(** X11: an entry whose name matches an exclusion pattern is left as it is in
    the destination (absent, if it was absent), whatever the strategy and the
    outcome, unless it is a directory on both sides: common subdirectories
    are merged without a look at the exclusion list. *)
Theorem merge_dirs_leaves_excluded re_match now (a b : entries)
    (src dst : string) (exclude : list string) (strategy : option callable)
    (proxy : _DataModifyProxy) (t : trace) (x : string) :
  excluded re_match exclude x = true ->
  both_dirs a b x = false ->
  exists b',
    (_merge_dirs re_match now (Dir a) src dst exclude strategy proxy (Dir b) t).1.2
    = Dir b'
    /\ assoc x b' = assoc x b.
Proof. apply merge_dirs_excluded_entry. Qed.

Lemma merge_dirs_leaves_excluded_witness :
  let a := [("keep.log", regular "source" 9); ("new.log", regular "n" 1);
            ("data", regular "d" 1)] in
  let b := [("keep.log", regular "target" 2)] in
  (exists b',
      (_merge_dirs String.prefix 7 (Dir a) "/src" "/dst" ["keep"; "new"]
         (Some theirs) real (Dir b) no_trace).1.2 = Dir b'
      /\ assoc "keep.log" b' = assoc "keep.log" b) /\
  (exists b',
      (_merge_dirs String.prefix 7 (Dir a) "/src" "/dst" ["keep"; "new"]
         (Some theirs) real (Dir b) no_trace).1.2 = Dir b'
      /\ assoc "new.log" b' = assoc "new.log" b).
Proof.
  intros a b. split; apply merge_dirs_leaves_excluded; reflexivity.
Defined.

(** The exclusion list is not looked at for a directory that both sides
    have: what is new in it is copied although its name is excluded. *)
Example merge_dirs_excluded_common_subdir :
  _merge_dirs String.prefix 7 (Dir [("logs", Dir [("new", regular "n" 1)])])
    "/src" "/dst" ["logs"] None real (Dir [("logs", Dir [])]) no_trace
  = (Ok (), Dir [("logs", Dir [("new", regular "n" 7)])],
     Trace [LogCopy "/src/logs/new" "/dst/logs/new"] 0).
Proof. reflexivity. Qed.

(** X12: in a merge that is not a dry run, every entry that only the source
    has, that the directory comparison lists and that is not excluded is in
    the destination afterwards: a file with the source's bytes, a directory
    with the source's tree.  This holds whatever the outcome: also when a
    conflict on another entry makes the merge raise. *)
Theorem merge_dirs_copies_source_only re_match now (a b : entries)
    (src dst : string) (exclude : list string) (strategy : option callable)
    (proxy : _DataModifyProxy) (t : trace) (fn : string) (n : node) :
  NoDup (keys a) ->
  dry_run proxy = false ->
  assoc fn a = Some n ->
  assoc fn b = None ->
  ignored fn = false ->
  excluded re_match exclude fn = false ->
  exists b',
    (_merge_dirs re_match now (Dir a) src dst exclude strategy proxy (Dir b) t).1.2
    = Dir b'
    /\ assoc fn b' = Some (copied now n).
Proof. apply merge_dirs_copies_left_only. Qed.

Lemma merge_dirs_copies_source_only_witness :
  let a := [("x.txt", regular "source" 9); ("new", regular "n" 1)] in
  let b := [("x.txt", regular "target" 2)] in
  exists b',
    (_merge_dirs String.prefix 7 (Dir a) "/src" "/dst" [] None real (Dir b)
       no_trace).1.2 = Dir b'
    /\ assoc "new" b' = Some (regular "n" 7).
Proof.
  intros a b.
  apply (merge_dirs_copies_source_only String.prefix 7 a b "/src" "/dst" [] None
           real no_trace "new" (regular "n" 1)); try reflexivity.
  apply (bool_decide_unpack _). vm_compute. exact I.
Defined.

(** ** More on the job merge *)

Section jobs_more.
Variable re_match : string -> string -> bool.
Variable now : Z.
Variable dump : value -> string.

Lemma merge_jobs_heap_frame src_job dst_job exclude strategy doc_strategy dry w
    ref l :
  heap w !! ref = Some l ->
  (forall r, exclude = ExcludeList r -> r <> ref) ->
  heap (merge_jobs re_match now dump src_job dst_job exclude strategy
          doc_strategy dry w).2 !! ref = Some l.
Proof.
  intros Hl Hex. unfold merge_jobs.
  assert (Hlt : (ref < length (heap w))%nat) by by eapply lookup_lt_Some.
  destruct (match exclude with ExcludeNone => _ | _ => _ end) as [e hp] eqn:He.
  assert (Hhp : hp !! ref = Some l /\ e <> ref).
  { destruct exclude as [|r|p]; injection He as <- <-.
    - rewrite lookup_app_l by done. split; [done|lia].
    - split; [done|]. by apply Hex.
    - rewrite lookup_app_l by done. split; [done|lia]. }
  destruct Hhp as [Hhp Hne].
  destruct (negb (same_job src_job dst_job)); [done|].
  assert (Halter : alter (fun l0 => (l0 ++ [FN_MANIFEST src_job; FN_DOCUMENT src_job])%list)
                     e hp !! ref = Some l).
  { by rewrite list_lookup_alter_ne. }
  destruct (_merge_dirs _ _ _ _ _ _ _ _ _ _) as [[[] ?] ?]; simpl; [|done].
  by destruct (_merge_json_dicts _ _ _ _ _ _ _) as [[[? ?] ?] ?].
Qed.

Lemma merge_jobs_mismatch src_job dst_job exclude strategy doc_strategy dry w :
  same_job src_job dst_job = false ->
  exists w',
    merge_jobs re_match now dump src_job dst_job exclude strategy doc_strategy
      dry w = (Raise AssertionError, dst_job, w')
    /\ backing w' = backing w
    /\ forall ref l, heap w !! ref = Some l -> heap w' !! ref = Some l.
Proof.
  intros Hsame. unfold merge_jobs. rewrite Hsame.
  destruct exclude as [|r|p]; simpl; eexists; (split; [reflexivity|]);
    (split; [done|]); intros ref l Hl; simpl; try done.
  all: rewrite lookup_app_l; [done|by eapply lookup_lt_Some].
Qed.


End jobs_more.

(** ** More on the project merge *)

Lemma replace_job_ids j l :
  map get_id (replace_job j l) = map get_id l.
Proof.
  induction l as [|j' l IH]; simpl; [done|].
  destruct (String.eqb_spec (get_id j') (get_id j)) as [Heq|Hne]; simpl;
    [by rewrite Heq | by rewrite IH].
Qed.

Lemma replace_job_other id j l :
  get_id j <> id ->
  filter (fun j0 => get_id j0 = id) (replace_job j l)
  = filter (fun j0 => get_id j0 = id) l.
Proof.
  intros Hne. induction l as [|j' l IH]; simpl; [done|].
  destruct (String.eqb_spec (get_id j') (get_id j)) as [Heq|Hne'].
  - rewrite !filter_cons. repeat case_decide; congruence.
  - rewrite !filter_cons, IH. done.
Qed.

Lemma open_job_id p id j : open_job p id = Ok j -> get_id j = id.
Proof.
  unfold open_job. destruct (find _ (jobs p)) as [j'|] eqn:Hf; [|done].
  intros [= <-]. apply find_some in Hf as [_ Hf]. by apply String.eqb_eq in Hf.
Qed.

Section projects_more.
Variable re_match : string -> string -> bool.
Variable now : Z.
Variable dump : value -> string.
Variable detect_schema : Project -> schema.

Lemma merge_jobs_id src_job dst_job exclude strategy doc_strategy dry w :
  get_id (merge_jobs re_match now dump src_job dst_job exclude strategy
            doc_strategy dry w).1.2 = get_id dst_job.
Proof.
  unfold merge_jobs.
  destruct (match exclude with ExcludeNone => _ | _ => _ end) as [e hp].
  destruct (negb (same_job src_job dst_job)); [done|].
  destruct (_merge_dirs _ _ _ _ _ _ _ _ _ _) as [[[] ?] ?]; simpl; [|done].
  by destruct (_merge_json_dicts _ _ _ _ _ _ _) as [[[? ?] ?] ?].
Qed.

Lemma unselected_spec (selection : option (gset string)) id :
  match selection with
  | Some sel => bool_decide (id ∉ sel)
  | None => false
  end = negb (selected selection id).
Proof.
  destruct selection as [sel|]; simpl; [|done].
  destruct (decide (id ∈ sel)).
  - rewrite bool_decide_eq_false_2, bool_decide_eq_true_2; done || naive_solver.
  - rewrite bool_decide_eq_true_2, bool_decide_eq_false_2; done.
Qed.

(** What the loop over the jobs of the source does to the jobs of the
    destination. *)
Lemma merge_each_job_jobs exclude strategy doc_strategy selection proxy :
  forall src_jobs destination sk c m w,
    let res := merge_each_job re_match now dump exclude strategy doc_strategy
                 selection proxy src_jobs destination sk c m w in
    (exists new, job_ids res.1.2 = (job_ids destination ++ new)%list)
    /\ (forall id, selected selection id = false ->
                   jobs_with_id id res.1.2 = jobs_with_id id destination)
    /\ root_directory res.1.2 = root_directory destination
    /\ document res.1.2 = document destination
    /\ (forall sk' c' m', res.1.1 = Ok (sk', c', m') ->
          (c' + m' = c + m
                     + length (filter (fun j => selected selection (get_id j) = true)
                                 src_jobs))%nat
          /\ (c <= c')%nat
          /\ length (jobs res.1.2) = (length (jobs destination) + (c' - c))%nat).
Proof.
  induction src_jobs as [|src_job rest IH]; intros destination sk c m w; cbn zeta.
  - simpl. split; [exists []; by rewrite app_nil_r|]. split; [done|].
    split; [done|]. split; [done|]. intros sk' c' m' [= <- <- <-]. simpl. lia.
  - cbn [merge_each_job]. rewrite unselected_spec, filter_cons.
    destruct (selected selection (get_id src_job)) eqn:Hsel; cbn [negb].
    2: { rewrite decide_False by done. apply IH. }
    rewrite decide_True by done.
    unfold clone. destruct (has_job destination (get_id src_job)) eqn:Hhas.
    + destruct (open_job destination (get_id src_job)) as [dst_job|e] eqn:Hopen;
        [|simpl; split; [exists []; by rewrite app_nil_r|done]].
      pose proof (merge_jobs_id src_job dst_job exclude strategy doc_strategy
                    (DryRunProxy proxy)
                    (World (backing w) (heap w) (tr w))) as Hid.
      destruct (merge_jobs _ _ _ _ _ _ _ _ _ _) as [[r1 j1] w1]. simpl in Hid.
      apply open_job_id in Hopen.
      assert (Hids : job_ids (with_job destination j1) = job_ids destination)
        by apply replace_job_ids.
      assert (Hlen : length (jobs (with_job destination j1))
                     = length (jobs destination)).
      { pose proof (f_equal length Hids) as Hl. unfold job_ids in Hl.
        by rewrite !length_map in Hl. }
      assert (Hother : forall id, selected selection id = false ->
        jobs_with_id id (with_job destination j1) = jobs_with_id id destination).
      { intros id Hid'. apply replace_job_other. congruence. }
      destruct r1 as [sk1|e]; simpl.
      * match goal with |- context [merge_each_job _ _ _ _ _ _ _ _ rest ?d ?s ?c0 ?m0 ?w0] =>
          destruct (IH d s c0 m0 w0) as (Hnew & Hsel' & Hroot & Hdoc & Hcount)
        end.
        split; [by rewrite <- Hids|]. split.
        { intros id Hid'. rewrite Hsel' by done. by apply Hother. }
        split; [done|]. split; [done|].
        intros sk' c' m' Hr. destruct (Hcount _ _ _ Hr) as (H1 & H2 & H3).
        simpl. rewrite H3, Hlen. lia.
      * split; [exists []; by rewrite app_nil_r, Hids|]. done.
    + match goal with |- context [merge_each_job _ _ _ _ _ _ _ _ rest ?d ?s ?c0 ?m0 ?w0] =>
        destruct (IH d s c0 m0 w0) as ([new Hnew] & Hsel' & Hroot & Hdoc & Hcount)
      end.
      split.
      { eexists. rewrite Hnew. unfold job_ids. simpl.
        by rewrite map_app, <- app_assoc. }
      split.
      { intros id Hid'. rewrite Hsel' by done. unfold jobs_with_id. simpl.
        rewrite filter_app, filter_cons, filter_nil. simpl.
        rewrite decide_False by congruence. by rewrite app_nil_r. }
      split; [done|]. split; [done|].
      intros sk' c' m' Hr. destruct (Hcount _ _ _ Hr) as (H1 & H2 & H3).
      simpl. rewrite H3. simpl. rewrite length_app. simpl. lia.
Qed.
End projects_more.

(** ** Strategies of the wrong kind *)

Lemma merge_items_file_strategy mn g proxy k v w :
  py_eq w v = false ->
  forall src d sk t,
    NoDup (keys src) ->
    assoc k src = Some v ->
    assoc k d = Some w ->
    exists d' t',
      merge_items mn (Some (Fn2 g)) proxy src (VDict d) sk t
      = (Raise TypeError, VDict d', t').
Proof.
  intros Hne. induction src as [|[key value] rest IH]; intros d sk t Hnd Hk Hd;
    [done|].
  simpl in Hnd. apply NoDup_cons in Hnd as [Hkey Hnd].
  cbn [merge_items py_contains py_getitem]. simpl in Hk.
  destruct (String.eqb_spec k key) as [->|Hkk].
  - injection Hk as ->. rewrite Hd.
    rewrite bool_decide_eq_true_2 by eauto. rewrite Hne. simpl. eauto.
  - destruct (assoc key d) as [dv|] eqn:Hkd.
    + rewrite bool_decide_eq_true_2 by eauto.
      destruct (py_eq dv value); [by apply IH|]. simpl. eauto.
    + rewrite bool_decide_eq_false_2 by (intros [? ?]; done).
      unfold set_value, py_setitem. destruct (dry_run proxy); [by apply IH|].
      apply IH; [done..|]. by rewrite assoc_set_ne.
Qed.

(** X5: a strategy of two arguments, as the built-in [theirs] and [ours],
    cannot serve as a document strategy: whenever the two (well-formed)
    documents have a key with unequal values, the document merge raises
    [TypeError]. *)
Theorem merge_dicts_file_strategy_raises (g : string -> string -> result bool)
    (src dst : items) (proxy : _DataModifyProxy) (t : trace)
    (k : string) (v w : value) :
  well_formed (VDict src) ->
  well_formed (VDict dst) ->
  assoc k src = Some v ->
  assoc k dst = Some w ->
  py_eq w v = false ->
  exists dst' t',
    _merge_dicts (VDict src) (VDict dst) (Some (Fn2 g)) proxy t
    = (Raise TypeError, VDict dst', t').
Proof.
  intros Hs Hd Hv Hw Hne. cbn [_merge_dicts].
  destruct (py_eq (VDict src) (VDict dst)) eqn:Heq.
  - exfalso. apply py_eq_dict in Heq as [_ Hall]. rewrite Forall_forall in Hall.
    apply assoc_elem_of in Hv as Hin. destruct (Hall _ Hin) as (w' & Hw' & Hvw).
    simpl in *. assert (w' = w) by congruence. subst w'.
    apply well_formed_dict in Hs as [_ Hws]. apply well_formed_dict in Hd as [_ Hwd].
    rewrite Forall_forall in Hws, Hwd.
    apply py_eq_sym in Hvw; [congruence|apply (Hws _ Hin)|].
    apply (Hwd (k, w)). by apply assoc_elem_of.
  - apply well_formed_dict in Hs as [Hnd _].
    exact (merge_items_file_strategy _ g proxy k v w Hne src dst ∅ t Hnd Hv Hw).
Qed.

Lemma merge_dicts_file_strategy_raises_witness :
  exists dst' t',
    _merge_dicts (VDict [("b", VInt 2); ("a", VInt 1)]) (VDict [("a", VInt 99)])
      (Some ours) real no_trace
    = (Raise TypeError, VDict dst', t').
Proof.
  apply (merge_dicts_file_strategy_raises (fun _ _ => Ok false)
           [("b", VInt 2); ("a", VInt 1)] [("a", VInt 99)] real no_trace
           "a" (VInt 1) (VInt 99)); try reflexivity.
  - apply well_formed_dict. split; [|repeat constructor].
    apply (bool_decide_unpack _). vm_compute. exact I.
  - apply well_formed_dict. split; [|repeat constructor].
    apply (bool_decide_unpack _). vm_compute. exact I.
Defined.

(** X22: [last_modified] lets the source win only when it is strictly newer:
    if it answers true for a pair of paths, it answers false for the pair
    the other way round; for two paths of the same age it answers false. *)
Theorem last_modified_one_way (getmtime : string -> result Z)
    (fn_src fn_dst : string) :
  (call2 (last_modified getmtime) fn_src fn_dst = Ok true ->
   call2 (last_modified getmtime) fn_dst fn_src = Ok false) /\
  (forall m, getmtime fn_src = Ok m -> getmtime fn_dst = Ok m ->
             call2 (last_modified getmtime) fn_src fn_dst = Ok false).
Proof.
  unfold last_modified, call2. split.
  - destruct (getmtime fn_src) as [m1|], (getmtime fn_dst) as [m2|]; try done.
    intros [= H]. f_equal. apply Z.gtb_gt in H. rewrite Z.gtb_ltb.
    apply Z.ltb_ge. lia.
  - intros m -> ->. f_equal. rewrite Z.gtb_ltb. apply Z.ltb_irrefl.
Qed.

Lemma last_modified_one_way_witness :
  let getmtime := fun p : string => if String.eqb p "/src/x" then Ok 5 else Ok 3 in
  call2 (last_modified getmtime) "/dst/x" "/src/x" = Ok false.
Proof.
  intros getmtime.
  apply (last_modified_one_way getmtime "/src/x" "/dst/x"). reflexivity.
Defined.

(** ** Jobs and projects: what is kept, what is counted *)

(** X13: [merge_jobs] changes no list object but the one it is given as
    [exclude]: with [exclude=None] or a single pattern, every list of the
    caller is afterwards what it was. *)
Theorem merge_jobs_keeps_other_lists re_match now dump (src_job dst_job : Job)
    (exclude : exclude_arg) (strategy doc_strategy : option callable)
    (dry : dry_run_arg) (w : world) (ref : nat) (l : list string) :
  heap w !! ref = Some l ->
  (forall r, exclude = ExcludeList r -> r <> ref) ->
  heap (merge_jobs re_match now dump src_job dst_job exclude strategy
          doc_strategy dry w).2 !! ref = Some l.
Proof. apply merge_jobs_heap_frame. Qed.

Lemma merge_jobs_keeps_other_lists_witness :
  heap (merge_jobs String.prefix 7 (fun _ => "")
          (job "1" "/src/workspace/1" (Dir []) (transient []))
          (job "1" "/dst/workspace/1" (Dir []) (transient []))
          ExcludeNone None None (DryRunFlag false)
          (World ∅ [["mine"]] no_trace)).2 !! 0%nat
  = Some ["mine"].
Proof. apply merge_jobs_keeps_other_lists; [reflexivity|discriminate]. Defined.

(** X14: when the two jobs are not of the same type, or differ in their id or
    in a reserved file name, [merge_jobs] raises [AssertionError] before it
    merges anything: the destination job and the files are what they were,
    and so is every list object, the exclusion list included. *)
Theorem merge_jobs_rejects_mismatch re_match now dump (src_job dst_job : Job)
    (exclude : exclude_arg) (strategy doc_strategy : option callable)
    (dry : dry_run_arg) (w : world) :
  same_job src_job dst_job = false ->
  exists w',
    merge_jobs re_match now dump src_job dst_job exclude strategy doc_strategy
      dry w = (Raise AssertionError, dst_job, w')
    /\ backing w' = backing w
    /\ forall ref l, heap w !! ref = Some l -> heap w' !! ref = Some l.
Proof. apply merge_jobs_mismatch. Qed.

Lemma merge_jobs_rejects_mismatch_witness :
  let dst_job := job "2" "/dst/workspace/2" (Dir []) (transient []) in
  let w := World ∅ [["mine"]] no_trace in
  exists w',
    merge_jobs String.prefix 7 (fun _ => "")
      (job "1" "/src/workspace/1" (Dir [("f", regular "x" 1)]) (transient []))
      dst_job (ExcludeList 0) (Some theirs) None (DryRunFlag false) w
    = (Raise AssertionError, dst_job, w')
    /\ backing w' = backing w
    /\ forall ref l, heap w !! ref = Some l -> heap w' !! ref = Some l.
Proof. intros dst_job w. apply merge_jobs_rejects_mismatch. reflexivity. Defined.



(** X16: under a dry run the job merge leaves the destination job (its
    workspace tree and its document) and the files as they are. *)
Theorem merge_jobs_dry_run_keeps_job re_match now dump (src_job dst_job : Job)
    (exclude : exclude_arg) (strategy doc_strategy : option callable)
    (proxy : _DataModifyProxy) (w : world) :
  dry_run proxy = true ->
  exists r w',
    merge_jobs re_match now dump src_job dst_job exclude strategy doc_strategy
      (DryRunProxy proxy) w = (r, dst_job, w')
    /\ backing w' = backing w.
Proof. apply merge_jobs_dry_run. Qed.

Lemma merge_jobs_dry_run_keeps_job_witness :
  let dst_job := job "1" "/dst/workspace/1" (Dir [("x", regular "target" 2)])
                   (transient [("a", VInt 99)]) in
  exists r w',
    merge_jobs String.prefix 7 (fun _ => "")
      (job "1" "/src/workspace/1" (Dir [("x", regular "source" 9)])
         (transient [("a", VInt 1)]))
      dst_job ExcludeNone (Some theirs) (Some always)
      (DryRunProxy {| dry_run := true |}) empty_world
    = (r, dst_job, w')
    /\ backing w' = backing empty_world.
Proof. intros dst_job. apply merge_jobs_dry_run_keeps_job. reflexivity. Defined.

(** X17: under a dry run, when the destination has every job of the source,
    the project merge leaves the destination (its document and its jobs)
    and the files as they are. *)
Theorem merge_projects_dry_run_keeps_destination re_match now dump
    (detect_schema : Project -> schema) (source destination : Project)
    (exclude : exclude_arg) (strategy doc_strategy : option callable)
    (selection : option (list string)) (check_schema : bool) (w : world) :
  Forall (fun j => has_job destination (get_id j) = true) (jobs source) ->
  exists r w',
    merge_projects re_match now dump detect_schema source destination exclude
      strategy doc_strategy selection check_schema true w = (r, destination, w')
    /\ backing w' = backing w.
Proof. apply merge_projects_dry_run_without_clone. Qed.

Lemma merge_projects_dry_run_keeps_destination_witness :
  let source :=
    {| root_directory := "/src"; document := transient [("p", VInt 1)];
       jobs := [job "1" "/src/workspace/1" (Dir [("x", regular "source" 9)])
                  (transient [("a", VInt 1)])] |} in
  let destination :=
    {| root_directory := "/dst"; document := transient [("p", VInt 2)];
       jobs := [job "1" "/dst/workspace/1" (Dir [("x", regular "target" 2)])
                  (transient [("a", VInt 99)])] |} in
  exists r w',
    merge_projects String.prefix 7 (fun _ => "") (fun _ => ∅) source destination
      ExcludeNone (Some theirs) (Some always) None true true empty_world
    = (r, destination, w')
    /\ backing w' = backing empty_world.
Proof.
  intros source destination. apply merge_projects_dry_run_keeps_destination.
  repeat constructor.
Defined.

Section projects_kept.
Variable re_match : string -> string -> bool.
Variable now : Z.
Variable dump : value -> string.
Variable detect_schema : Project -> schema.

Lemma merge_projects_jobs source destination exclude strategy doc_strategy
    selection check_schema dry w :
  let res := merge_projects re_match now dump detect_schema source destination
               exclude strategy doc_strategy selection check_schema dry w in
  (exists new, job_ids res.1.2 = (job_ids destination ++ new)%list)
  /\ root_directory res.1.2 = root_directory destination
  /\ (forall id, selected (list_to_set <$> selection) id = false ->
                 jobs_with_id id res.1.2 = jobs_with_id id destination).
Proof.
  cbn zeta. unfold merge_projects.
  assert (Hsame : forall (d : Project),
    (exists new, job_ids d = (job_ids d ++ new)%list)).
  { intros d. exists []. by rewrite app_nil_r. }
  destruct (same_project source destination); [by split|].
  match goal with |- context [if ?c then (Raise (MergeSchemaConflict _ _), _, _) else _] =>
    destruct c; [by split|] end.
  destruct (_merge_json_dicts _ _ _ _ _ _ _) as [[[[sk0|e] d0] bk0] t0];
    [|by split; [apply (Hsame destination)|]].
  match goal with
  |- context [merge_each_job _ _ _ ?x1 ?x2 ?x3 ?x4 ?x5 ?x6 ?x7 ?x8 ?x9 ?x10 ?x11] =>
    pose proof (merge_each_job_jobs re_match now dump x1 x2 x3 x4 x5 x6 x7 x8 x9
                  x10 x11) as Hloop;
    destruct (merge_each_job re_match now dump x1 x2 x3 x4 x5 x6 x7 x8 x9 x10 x11)
      as [[[[[sk1 c1] m1]|err] d1] w1]
  end; cbn zeta in Hloop; simpl in Hloop;
  destruct Hloop as (Hnew & Hsel & Hroot & _ & _); simpl; by split.
Qed.
End projects_kept.

(** X18: the project merge removes no job from the destination and moves
    none: whatever the outcome, the ids of the destination's jobs are
    afterwards the ids they were, in the same order, followed by those of
    the new jobs; the root directory is the same. *)
Theorem merge_projects_keeps_jobs re_match now dump
    (detect_schema : Project -> schema) (source destination : Project)
    (exclude : exclude_arg) (strategy doc_strategy : option callable)
    (selection : option (list string)) (check_schema dry : bool) (w : world) :
  (exists new,
      job_ids (merge_projects re_match now dump detect_schema source destination
                 exclude strategy doc_strategy selection check_schema dry w).1.2
      = (job_ids destination ++ new)%list)
  /\ root_directory
       (merge_projects re_match now dump detect_schema source destination
          exclude strategy doc_strategy selection check_schema dry w).1.2
     = root_directory destination.
Proof.
  destruct (merge_projects_jobs re_match now dump detect_schema source destination
              exclude strategy doc_strategy selection check_schema dry w)
    as (H1 & H2 & _). by split.
Qed.

(** X19: with a selection, the project merge neither clones nor merges a job
    whose id is not selected: whatever the outcome, the destination has
    afterwards, under such an id, the jobs it had, unchanged. *)
Theorem merge_projects_respects_selection re_match now dump
    (detect_schema : Project -> schema) (source destination : Project)
    (exclude : exclude_arg) (strategy doc_strategy : option callable)
    (sel : list string) (check_schema dry : bool) (w : world) (id : string) :
  id ∉ sel ->
  jobs_with_id id
    (merge_projects re_match now dump detect_schema source destination exclude
       strategy doc_strategy (Some sel) check_schema dry w).1.2
  = jobs_with_id id destination.
Proof.
  intros Hid.
  destruct (merge_projects_jobs re_match now dump detect_schema source destination
              exclude strategy doc_strategy (Some sel) check_schema dry w)
    as (_ & _ & H). apply H. simpl. apply bool_decide_eq_false_2. set_solver.
Qed.

Lemma merge_projects_respects_selection_witness :
  let source :=
    {| root_directory := "/src"; document := transient [];
       jobs := [job "1" "/src/workspace/1" (Dir [("x", regular "source" 9)])
                  (transient [("a", VInt 1)]);
                job "2" "/src/workspace/2" (Dir []) (transient []);
                job "3" "/src/workspace/3" (Dir []) (transient [])] |} in
  let destination :=
    {| root_directory := "/dst"; document := transient [];
       jobs := [job "1" "/dst/workspace/1" (Dir [("x", regular "target" 2)])
                  (transient [("a", VInt 99)])] |} in
  jobs_with_id "1"
    (merge_projects String.prefix 7 (fun _ => "") (fun _ => ∅) source destination
       ExcludeNone (Some theirs) (Some always) (Some ["2"]) true false
       empty_world).1.2
  = jobs_with_id "1" destination.
Proof.
  intros source destination. apply merge_projects_respects_selection. set_solver.
Defined.

(** X20: when the loop over the jobs of the source ends without an error,
    every selected job has been either cloned or merged, once: the two
    counts have grown together by the number of selected jobs, and the
    destination has as many more jobs as were cloned. *)
Theorem merge_each_job_counts re_match now dump (exclude : exclude_arg)
    (strategy doc_strategy : option callable) (selection : option (gset string))
    (proxy : _DataModifyProxy) (src_jobs : list Job) (destination : Project)
    (sk : gset string) (c m : nat) (w : world)
    (sk' : gset string) (c' m' : nat) (destination' : Project) (w' : world) :
  merge_each_job re_match now dump exclude strategy doc_strategy selection proxy
    src_jobs destination sk c m w = (Ok (sk', c', m'), destination', w') ->
  (c' + m' = c + m
             + length (filter (fun j => selected selection (get_id j) = true)
                         src_jobs))%nat
  /\ (c <= c')%nat
  /\ length (jobs destination') = (length (jobs destination) + (c' - c))%nat.
Proof.
  intros H.
  destruct (merge_each_job_jobs re_match now dump exclude strategy doc_strategy
              selection proxy src_jobs destination sk c m w)
    as (_ & _ & _ & _ & Hc). rewrite H in Hc.
  exact (Hc sk' c' m' eq_refl).
Qed.

Lemma merge_each_job_counts_witness :
  let src_jobs := [job "1" "/src/workspace/1" (Dir []) (transient []);
                   job "2" "/src/workspace/2" (Dir []) (transient []);
                   job "3" "/src/workspace/3" (Dir []) (transient [])] in
  let destination :=
    {| root_directory := "/dst"; document := transient [];
       jobs := [job "1" "/dst/workspace/1" (Dir []) (transient [])] |} in
  exists c' m' destination',
    (c' + m' = 0 + 0
               + length (filter (fun j => selected (Some {["1"; "2"]}) (get_id j) = true)
                           src_jobs))%nat
    /\ (0 <= c')%nat
    /\ length (jobs destination') = (length (jobs destination) + (c' - 0))%nat.
Proof.
  intros src_jobs destination.
  destruct (merge_each_job String.prefix 7 (fun _ => "") ExcludeNone None None
              (Some {["1"; "2"]}) real src_jobs destination ∅ 0 0 empty_world)
    as [[r d'] w'] eqn:H.
  assert (Hr : exists sk', r = Ok (sk', 1%nat, 1%nat)).
  { assert (Hr' : exists sk',
      (merge_each_job String.prefix 7 (fun _ => "") ExcludeNone None None
         (Some {["1"; "2"]}) real src_jobs destination ∅ 0 0 empty_world).1.1
      = Ok (sk', 1%nat, 1%nat)) by (exists ∅; vm_compute; reflexivity).
    rewrite H in Hr'. exact Hr'. }
  destruct Hr as [sk' ->].
  exists 1%nat, 1%nat, d'.
  exact (merge_each_job_counts String.prefix 7 (fun _ => "") ExcludeNone None None
           (Some {["1"; "2"]}) real src_jobs destination ∅ 0 0 empty_world
           sk' 1 1 d' w' H).
Defined.

Lemma has_job_app p j id :
  has_job {| root_directory := root_directory p; document := document p;
             jobs := (jobs p ++ [j])%list |} id
  = has_job p id || String.eqb (get_id j) id.
Proof. unfold has_job. simpl. rewrite existsb_app. simpl. by rewrite orb_false_r. Qed.

Section clones.
Variable re_match : string -> string -> bool.
Variable now : Z.
Variable dump : value -> string.

Lemma merge_each_job_clones exclude strategy doc_strategy proxy :
  forall src_jobs destination sk c m w,
    NoDup (map get_id src_jobs) ->
    Forall (fun j => has_job destination (get_id j) = false) src_jobs ->
    exists new w',
      merge_each_job re_match now dump exclude strategy doc_strategy None proxy
        src_jobs destination sk c m w
      = (Ok (sk, (c + length src_jobs)%nat, m),
         {| root_directory := root_directory destination;
            document := document destination;
            jobs := (jobs destination ++ new)%list |}, w')
      /\ heap w' = heap w
      /\ Forall2 (fun j j' => get_id j' = get_id j /\ tree j' = tree j
                              /\ data (doc j') = data (doc j)) src_jobs new.
Proof.
  induction src_jobs as [|src_job rest IH]; intros destination sk c m w Hnd Hall.
  - exists [], w. simpl. rewrite app_nil_r, Nat.add_0_r.
    split; [by destruct destination|]. split; [done|constructor].
  - simpl in Hnd. apply NoDup_cons in Hnd as [Hid Hnd].
    apply Forall_cons in Hall as [Hnew Hall].
    cbn [merge_each_job]. unfold clone. rewrite Hnew.
    replace (c + length (src_job :: rest))%nat with (S c + length rest)%nat
      by (simpl; lia).
    match goal with |- context [merge_each_job _ _ _ _ _ _ _ _ rest ?d ?s ?c0 ?m0 ?w0] =>
      destruct (IH d s c0 m0 w0 Hnd) as (new & w' & -> & Hheap & Hf2)
    end.
    { apply Forall_forall. intros j Hj. rewrite has_job_app.
      rewrite Forall_forall in Hall. rewrite (Hall j Hj). simpl.
      apply String.eqb_neq. intros Heq. apply Hid. rewrite Heq.
      apply list_elem_of_fmap. by exists j. }
    simpl. eexists (_ :: new), w'. rewrite <- app_assoc. simpl.
    split; [done|]. split; [done|].
    constructor; [done|exact Hf2].
Qed.
End clones.

(** X21: in a merge that is not a dry run and has no selection, source jobs
    with distinct ids that the destination does not have are all cloned,
    none is merged: the loop ends without an error, the count of clones
    grows by their number, and the destination has afterwards its jobs
    followed by one new job per source job, with the id, the workspace tree
    and the document of the source job.  No list object is changed. *)
Theorem merge_each_job_clones_new_jobs re_match now dump (exclude : exclude_arg)
    (strategy doc_strategy : option callable) (proxy : _DataModifyProxy)
    (src_jobs : list Job) (destination : Project) (sk : gset string)
    (c m : nat) (w : world) :
  dry_run proxy = false ->
  NoDup (map get_id src_jobs) ->
  Forall (fun j => has_job destination (get_id j) = false) src_jobs ->
  exists new w',
    merge_each_job re_match now dump exclude strategy doc_strategy None proxy
      src_jobs destination sk c m w
    = (Ok (sk, (c + length src_jobs)%nat, m),
       {| root_directory := root_directory destination;
          document := document destination;
          jobs := (jobs destination ++ new)%list |}, w')
    /\ heap w' = heap w
    /\ Forall2 (fun j j' => get_id j' = get_id j /\ tree j' = tree j
                            /\ data (doc j') = data (doc j)) src_jobs new.
Proof. intros _. apply merge_each_job_clones. Qed.

Lemma merge_each_job_clones_new_jobs_witness :
  let src_jobs := [job "1" "/src/workspace/1" (Dir [("x", regular "a" 1)])
                     (transient [("a", VInt 1)]);
                   job "2" "/src/workspace/2" (Dir []) (transient [])] in
  let destination :=
    {| root_directory := "/dst"; document := transient []; jobs := [] |} in
  exists new w',
    merge_each_job String.prefix 7 (fun _ => "") ExcludeNone None None None real
      src_jobs destination ∅ 0 0 empty_world
    = (Ok (∅, (0 + length src_jobs)%nat, 0%nat),
       {| root_directory := root_directory destination;
          document := document destination;
          jobs := (jobs destination ++ new)%list |}, w')
    /\ heap w' = heap empty_world
    /\ Forall2 (fun j j' => get_id j' = get_id j /\ tree j' = tree j
                            /\ data (doc j') = data (doc j)) src_jobs new.
Proof.
  intros src_jobs destination. apply merge_each_job_clones_new_jobs.
  - reflexivity.
  - apply (bool_decide_unpack _). vm_compute. exact I.
  - repeat constructor.
Defined.
